(** * MailHubRelay: the relay server, its configuration and its producers

    A shallow embedding of the Go sources of mailhubrelay:
    - package [config] (internal/config/config.go): the configuration
      records, [defaultConfig], [Load], [validateConfig], [Save];
    - the relay server mhrs: [main], [handleSignals], [reloadConfig],
      [handleConnection], [processEmail], [sendEmail];
    - the two producers, mhrc and submitf, with their [sendToMHRS].

    Conventions.  A Go [string] is a [string], a [[]byte] is a [list byte],
    an [int] or a [time.Duration] is a [Z].  The only arithmetic of the
    sources on them is [attempt++], under the guard [attempt < MaxRetries],
    and [MaxRetries - 1], on a retry count that [validateConfig] made
    positive: neither wraps around.  A Go [error] is its message; the nil
    error is [None].  A pointer to a [Config] that may be nil is an
    [option].  The operating system, the network and the libraries outside
    the repository are oracles: records of functions that say what each
    call returns. *)

From Stdlib Require Import ZArith List String Ascii Bool Lia.
From Stdlib.Strings Require Import Byte.
Import ListNotations.
Open Scope string_scope.
Open Scope list_scope.
Open Scope Z_scope.

(** ** Errors and results *)

Definition error := string.

Inductive result (A : Type) : Type :=
| Ok (a : A)
| Err (e : error).
Arguments Ok {A} a.
Arguments Err {A} e.

(** [fmt.Errorf(prefix + ": %w", err)]: the message of the wrapped error
    after the prefix. *)
Definition wrap (prefix : string) (err : error) : error :=
  (prefix ++ ": " ++ err)%string.

Definition is_empty (s : string) : bool :=
  match s with
  | EmptyString => true
  | String _ _ => false
  end.

(** ** Package logger (github.com/LixenWraith/logger): what the repository
    uses of it.  The fields of [logger.Config] are the ones [defaultConfig]
    sets. *)

Inductive Level := LevelDebug | LevelInfo | LevelWarn | LevelError.

Record LoggerConfig := mkLoggerConfig {
  Level_ : Level;
  Name : string;
  Directory : string;
  BufferSize : Z;
  MaxSizeMB : Z;
  MaxTotalSizeMB : Z;
  MinDiskFreeMB : Z
}.

(** ** Package config *)

Module config.

Definition defaultConfigBase : string := "/usr/local/etc".

Record SMTPConfig := mkSMTPConfig {
  Host : string;
  Port : string;
  FromAddr : string;
  AuthUser : string;
  AuthPass : string
}.

Record ServerConfig := mkServerConfig {
  InternalAddr : string;
  ExternalAddr : string;
  Timeout : Z;
  RetryDelay : Z;
  MaxRetries : Z;
  AllowedOrigins : list string
}.

Record Config := mkConfig {
  SMTP : SMTPConfig;
  Server : ServerConfig;
  Logging : LoggerConfig
}.

(** [time.Duration] counts nanoseconds. *)
Definition Second : Z := 1000000000.
Definition Minute : Z := 60 * Second.

Definition defaultConfig : Config :=
  {| SMTP := {| Host := "smtp.gmail.com";
                Port := "587";
                FromAddr := "user@example.com";
                AuthUser := "user@example.com";
                AuthPass := "0123456789AB" |};
     Server := {| InternalAddr := "localhost:2525";
                  ExternalAddr := "localhost:8845";
                  Timeout := 3 * Minute;
                  RetryDelay := 10 * Second;
                  MaxRetries := 3;
                  AllowedOrigins := ["https://example.com"; "http://example.com"] |};
     Logging := {| Level_ := LevelDebug;
                   Name := "";
                   Directory := "/var/log";
                   BufferSize := 1000;
                   MaxSizeMB := 100;
                   MaxTotalSizeMB := 1000;
                   MinDiskFreeMB := 500 |} |}.

(** [filepath.Join] on components that are already clean (no separator to
    fold, no dot segment), which is how [Load] and [Save] call it. *)
Definition filepath_Join (dir name : string) : string :=
  (dir ++ "/" ++ name)%string.

(** A component that [filepath.Clean] leaves as it is: not empty, without
    a separator, and neither [.] nor [..].  [filepath.Join] of a clean
    directory and such components only puts the separators in. *)
Fixpoint has_separator (s : string) : bool :=
  match s with
  | EmptyString => false
  | String c s => Ascii.eqb c "/" || has_separator s
  end.

Definition clean_component (name : string) : bool :=
  negb (String.eqb name "") && negb (has_separator name)
  && negb (String.eqb name ".") && negb (String.eqb name "..").

(** [filepath.Join(defaultConfigBase, name, name+".toml")] and its
    [filepath.Dir]. *)
Definition configDir (name : string) : string :=
  filepath_Join defaultConfigBase name.

Definition configPath (name : string) : string :=
  filepath_Join (configDir name) (name ++ ".toml")%string.

(** The file system as [Load] and [Save] see it, and the TOML library. *)
Record FileSystem := mkFileSystem {
  os_MkdirAll : string -> option error;
  os_Stat : string -> option error;
  os_ReadFile : string -> result (list byte);
  os_WriteFile : string -> list byte -> option error
}.

Record Toml := mkToml {
  (* tinytoml.Unmarshal(data, &config): the config with the values of the
     document written over it, or an error *)
  Unmarshal : list byte -> Config -> result Config;
  (* tinytoml.Marshal(config) *)
  Marshal : Config -> result (list byte)
}.

Definition validateConfig (config : Config) : option error :=
  if is_empty (Host (SMTP config)) || is_empty (Port (SMTP config)) ||
     is_empty (FromAddr (SMTP config)) || is_empty (AuthUser (SMTP config)) ||
     is_empty (AuthPass (SMTP config))
  then Some "missing required SMTP configuration"
  else if is_empty (InternalAddr (Server config)) || (Timeout (Server config) <=? 0) ||
          (RetryDelay (Server config) <=? 0) || (MaxRetries (Server config) <=? 0)
  then Some "invalid internal server configuration"
  else if is_empty (Directory (Logging config)) || (BufferSize (Logging config) <=? 0)
  then Some "invalid logging configuration"
  else None.

(** The default configuration with the logging name and directory of the
    application, as [Load] builds it before it looks for a file. *)
Definition namedDefault (name : string) : Config :=
  let config := defaultConfig in
  {| SMTP := SMTP config;
     Server := Server config;
     Logging := {| Level_ := Level_ (Logging config);
                   Name := name;
                   Directory := filepath_Join (Directory (Logging config)) name;
                   BufferSize := BufferSize (Logging config);
                   MaxSizeMB := MaxSizeMB (Logging config);
                   MaxTotalSizeMB := MaxTotalSizeMB (Logging config);
                   MinDiskFreeMB := MinDiskFreeMB (Logging config) |} |}.

(** [Load] returns a pointer to the configuration (nil on error), whether
    the file exists, and the error.  The block that reads the file
    either returns early with an error or goes on with the merged
    configuration and [configExists]. *)
Definition Load (fs : FileSystem) (toml : Toml) (name : string)
  : option Config * bool * option error :=
  let defaultConfigPath := configPath name in
  match os_MkdirAll fs (configDir name) with
  | Some err => (None, false, Some (wrap "failed to create config directory" err))
  | None =>
    let config := namedDefault name in
    let merged : (option Config * bool * option error) + (Config * bool) :=
      match os_Stat fs defaultConfigPath with
      | None =>
        let configExists := true in
        match os_ReadFile fs defaultConfigPath with
        | Err err => inl (None, configExists, Some (wrap "failed to read config file" err))
        | Ok data =>
          match Unmarshal toml data config with
          | Err err => inl (None, configExists, Some (wrap "failed to parse config file" err))
          | Ok config => inr (config, configExists)
          end
        end
      | Some _ => inr (config, false)
      end in
    match merged with
    | inl early => early
    | inr (config, configExists) =>
      match validateConfig config with
      | Some err => (None, configExists, Some err)
      | None => (Some config, configExists, None)
      end
    end
  end.

Definition Save (fs : FileSystem) (toml : Toml) (config : option Config) (name : string)
  : option error :=
  match config with
  | None => Some "config cannot be nil"
  | Some config =>
    let defaultConfigPath := configPath name in
    match Marshal toml config with
    | Err err => Some (wrap "failed to marshal config" err)
    | Ok data =>
      match os_WriteFile fs defaultConfigPath data with
      | Some err => Some (wrap "failed to write config file" err)
      | None => None
      end
    end
  end.

End config.

(** ** The request on the wire

    The three programs declare the same struct, with the JSON keys
    recipient, subject and body.  [Body] is a slice that may be nil
    ([None]), which the JSON encoder tells from an empty one. *)

Record EmailRequest := mkEmailRequest {
  Recipient : string;
  Subject : string;
  Body : option (list byte)
}.

(** ** Time, contexts and select

    Instants and durations are nanoseconds.  A [context.Context] is the
    instant at which its Done channel is closed, if ever: by the cancel
    function of an ancestor or by its own deadline. *)

Record Context := mkContext {
  done_at : option Z
}.

Definition Background : Context := {| done_at := None |}.

(** [context.WithTimeout(parent, timeout)] called at [now]. *)
Definition WithTimeout (parent : Context) (timeout now : Z) : Context :=
  {| done_at := match done_at parent with
                | None => Some (now + timeout)
                | Some c => Some (Z.min c (now + timeout))
                end |}.

Inductive Selected :=
| TimerFired (at_ : Z)
| CtxDone (at_ : Z).

(** [select { case <-time.After(d): ... case <-ctx.Done(): ... }] entered
    at [now].  The timer is ready at [now + d] (at once when [d <= 0]), the
    Done channel when the context is done.  The case that is ready first is
    taken; when both are ready at the same instant the runtime picks one
    ([pick_timer]). *)
Definition select_After_or_Done (ctx : Context) (d now : Z) (pick_timer : bool) : Selected :=
  let timer := now + Z.max 0 d in
  match done_at ctx with
  | None => TimerFired timer
  | Some c =>
    let done := Z.max now c in
    if done <? timer then CtxDone done
    else if timer <? done then TimerFired timer
    else if pick_timer then TimerFired timer
    else CtxDone done
  end.

(** ** What a run does: its events *)

(** [email.Email] as [processEmail] fills it. *)
Record Email := mkEmail {
  To : list string;
  From : string;
  Subject_ : string;
  Text : option (list byte)
}.

(** One SMTP session: the arguments of [e.SendWithStartTLS(addr, auth,
    tlsConfig)], with [auth = smtp.PlainAuth("", user, pass, host)]. *)
Record Session := mkSession {
  addr : string;
  auth_user : string;
  auth_pass : string;
  auth_host : string;
  tls_ServerName : string;
  email : Email
}.

Inductive Event :=
| EvLog (lvl : Level) (msg : string)      (* logger.Debug/Info/Warn/Error *)
| EvStderr (msg : string)                 (* fmt.Fprintf(os.Stderr, ...) *)
| EvSend (s : Session) (start finish : Z) (res : option error)
                                          (* one call of SendWithStartTLS *)
| EvTimer (start finish : Z)              (* <-time.After(d) received *)
| EvCtxDone (at_ : Z)                     (* <-ctx.Done() received *)
| EvWrite (data : list byte)              (* conn.Write: the bytes that went out *)
| EvClose                                 (* conn.Close *)
| EvLoggerShutdown.                       (* logger.Shutdown *)

Definition is_send (e : Event) : bool :=
  match e with EvSend _ _ _ _ => true | _ => false end.

Definition send_failed (e : Event) : bool :=
  match e with EvSend _ _ _ (Some _) => true | _ => false end.

Definition send_succeeded (e : Event) : bool :=
  match e with EvSend _ _ _ None => true | _ => false end.

Definition is_log (e : Event) : bool :=
  match e with EvLog _ _ => true | _ => false end.

(** The transport invocations of a trace, in order. *)
Definition sends (tr : list Event) : list Event := filter is_send tr.

(** What a trace does besides logging. *)
Definition actions (tr : list Event) : list Event :=
  filter (fun e => negb (is_log e)) tr.

(** The instant at which a transport invocation starts and the instant at
    which it returns. *)
Definition start_of (e : Event) : option Z :=
  match e with EvSend _ start _ _ => Some start | _ => None end.

Definition finish_of (e : Event) : option Z :=
  match e with EvSend _ _ finish _ => Some finish | _ => None end.

(** The result of running a function: what it did and when it returned. *)
Record Run := mkRun {
  events : list Event;
  finished : Z
}.

(** ** The relay server mhrs *)

Module mhrs.
Import config.

Definition appName : string := "mhrs".

(** What lies outside the process during one connection: the JSON decoder
    of the standard library, the upstream SMTP server (how long the call
    made in iteration [attempt] takes and what it returns) and the choice
    of the runtime between two ready cases of a select. *)
Record World := mkWorld {
  json_Decode : list byte -> result EmailRequest;
  SendWithStartTLS : Z -> Session -> Z * option error;
  pick_timer : Z -> bool
}.

(** An accepted connection: the peer, the bytes it sends, and how long the
    decoder waits for them. *)
Record Conn := mkConn {
  RemoteAddr : string;
  stream : list byte;
  read_time : Z
}.

(** The configuration object behind the pointer [cfg] that [main] hands to
    every goroutine: its content at each instant.  A function reads the
    content at the instant of the read. *)
Definition Shared := Z -> Config.

(** A configuration object nobody writes. *)
Definition fixed (c : Config) : Shared := fun _ => c.

(** The session [sendEmail] opens for the message [e] when the shared
    object holds [c]. *)
Definition session (c : Config) (e : Email) : Session :=
  {| addr := (Host (SMTP c) ++ ":" ++ Port (SMTP c))%string;
     auth_user := AuthUser (SMTP c);
     auth_pass := AuthPass (SMTP c);
     auth_host := Host (SMTP c);
     tls_ServerName := Host (SMTP c);
     email := e |}.

(** [sendEmail], called in iteration [attempt] at [now]. *)
Definition sendEmail (w : World) (attempt : Z) (e : Email) (cfg : Shared) (now : Z)
  : option error * Run :=
  let s := session (cfg now) e in
  let '(took, err) := SendWithStartTLS w attempt s in
  let finish := now + Z.max 0 took in
  let before := [EvLog LevelDebug "Preparing to send email";
                 EvLog LevelDebug "Initiating SMTP connection";
                 EvSend s now finish err] in
  match err with
  | Some err =>
    (Some (wrap "failed to send email" err),
     {| events := before ++ [EvLog LevelError "Failed to send email"];
        finished := finish |})
  | None =>
    (None,
     {| events := before ++ [EvLog LevelDebug "Email sent successfully"];
        finished := finish |})
  end.

(** The loop of [processEmail] from the test [attempt < cfg.Server.MaxRetries]
    on.  [fuel] bounds the iterations: the bound of the loop is read from
    the shared object at every test, so it is not known at the start.
    [None] means the fuel ran out before the loop ended. *)
Fixpoint attempts (w : World) (fuel : nat) (ctx : Context) (e : Email) (cfg : Shared)
  (attempt now : Z) : option Run :=
  if attempt <? MaxRetries (Server (cfg now)) then
    match fuel with
    | O => None
    | S fuel =>
      let '(err, sent) := sendEmail w attempt e cfg now in
      let now := finished sent in
      let head := EvLog LevelDebug "Attempting to send email" :: events sent in
      match err with
      | Some err =>
        let head := head ++ [EvLog LevelError "Email attempt failed"] in
        if attempt <? MaxRetries (Server (cfg now)) - 1 then
          match select_After_or_Done ctx (RetryDelay (Server (cfg now))) now
                  (pick_timer w attempt) with
          | TimerFired woke =>
            match attempts w fuel ctx e cfg (attempt + 1) woke with
            | Some rest =>
              Some {| events := head ++ EvTimer now woke :: events rest;
                      finished := finished rest |}
            | None => None
            end
          | CtxDone woke =>
            Some {| events := head ++ [EvCtxDone woke;
                                       EvLog LevelDebug "Email processing cancelled"];
                    finished := woke |}
          end
        else
          match attempts w fuel ctx e cfg (attempt + 1) now with
          | Some rest =>
            Some {| events := head ++ events rest; finished := finished rest |}
          | None => None
          end
      | None =>
        Some {| events := head ++ [EvLog LevelInfo "Email sent successfully"];
                finished := now |}
      end
    end
  else Some {| events := []; finished := now |}.

(** The message [processEmail] builds from the request when the shared
    object holds [c]. *)
Definition message (req : EmailRequest) (c : Config) : Email :=
  {| To := [Recipient req];
     From := FromAddr (SMTP c);
     Subject_ := Subject req;
     Text := Body req |}.

Definition processEmail (w : World) (fuel : nat) (ctx : Context) (req : EmailRequest)
  (cfg : Shared) (now : Z) : option Run :=
  let e := message req (cfg now) in
  match attempts w fuel ctx e cfg 0 now with
  | Some r =>
    Some {| events := EvLog LevelInfo "Processing email request" :: events r;
            finished := finished r |}
  | None => None
  end.

(** [handleConnection]: the deferred [conn.Close] runs when the function
    returns, on either path; the handler waits on the wait group for the
    goroutine that runs [processEmail]. *)
Definition handleConnection (w : World) (fuel : nat) (ctx : Context) (conn : Conn)
  (cfg : Shared) (now : Z) : option Run :=
  let opened := [EvLog LevelInfo "New connection received";
                 EvLog LevelDebug "Decoding email request"] in
  let now := now + Z.max 0 (read_time conn) in
  match json_Decode w (stream conn) with
  | Err err =>
    Some {| events := opened ++ [EvLog LevelError "Failed to decode email request"; EvClose];
            finished := now |}
  | Ok req =>
    let emailCtx := WithTimeout ctx (Timeout (Server (cfg now))) now in
    match processEmail w fuel emailCtx req cfg now with
    | Some r =>
      Some {| events := opened ++ [EvLog LevelDebug "Successfully decoded email request"]
                          ++ events r ++ [EvClose];
              finished := finished r |}
    | None => None
    end
  end.

(** *** Startup, signals and reload *)

(** What [main] and [reloadConfig] find outside the process when they
    run. *)
Record System := mkSystem {
  fs : FileSystem;
  toml : Toml;
  logger_Init : LoggerConfig -> option error;
  net_Listen : string -> option error
}.

(** [reloadConfig(ctx, cfg)]: the error it returns, the content of the
    object behind [cfg] when it returns, and what it logs.  [Load] returns
    a nil pointer only together with an error ([Load_nil_only_with_error]
    below); the branch for a nil pointer without one stands for the panic
    of the dereference. *)
Definition reloadConfig (sys : System) (cfg : Config)
  : option error * Config * list Event :=
  match Load (fs sys) (toml sys) appName with
  | (_, _, Some err) =>
    (Some (wrap "failed to load new configuration" err), cfg, [])
  | (newConfig, configExists, None) =>
    if negb configExists then
      (Some "configuration file not found", cfg, [])
    else
      match newConfig with
      | None => (Some "panic: nil pointer dereference", cfg, [])
      | Some newConfig =>
        match logger_Init sys (Logging newConfig) with
        | Some err => (Some (wrap "failed to reinitialize logger" err), cfg, [])
        | None =>
          (None, newConfig, [EvLog LevelInfo "Configuration reloaded successfully"])
        end
      end
  end.

(** The signals [main] registers with [signal.Notify]. *)
Inductive Signal := SIGINT | SIGTERM | SIGHUP.

(** What the signal handler has done when it returns, or when the signals
    it was given are used up and it waits in its select: the content of the
    shared object, the writes it made to it (instant and new content, in
    order), the instant at which it called [cancel], and its log. *)
Record Handled := mkHandled {
  content : Config;
  writes : list (Z * Config);
  cancel_called : option Z;
  logged : list Event
}.

(** The loop of [handleSignals] over the signals that arrive, each with
    its instant and the system as it is then.  The case [<-ctx.Done()] is
    left out: the context is the root one, which only this loop cancels
    (and then returns) while [main] waits for it. *)
Fixpoint signalLoop (sigs : list (Z * Signal * System)) (cfg : Config) : Handled :=
  match sigs with
  | [] => {| content := cfg; writes := []; cancel_called := None; logged := [] |}
  | (now, sig, sys) :: sigs =>
    match sig with
    | SIGHUP =>
      let '(err, cfg', evs) := reloadConfig sys cfg in
      let rest := signalLoop sigs cfg' in
      match err with
      | Some err =>
        {| content := content rest;
           writes := writes rest;
           cancel_called := cancel_called rest;
           logged := evs ++ EvLog LevelError "Failed to reload configuration" :: logged rest |}
      | None =>
        {| content := content rest;
           writes := (now, cfg') :: writes rest;
           cancel_called := cancel_called rest;
           logged := evs ++ logged rest |}
      end
    | SIGINT | SIGTERM =>
      {| content := cfg;
         writes := [];
         cancel_called := Some now;
         logged := [EvLog LevelInfo "Received shutdown signal"] |}
    end
  end.

Definition handleSignals (sigs : list (Z * Signal * System)) (cfg : Config) : Handled :=
  let h := signalLoop sigs cfg in
  {| content := content h;
     writes := writes h;
     cancel_called := cancel_called h;
     logged := EvLog LevelDebug "Starting signal handler" :: logged h |}.

(** The shared object as the other goroutines read it: its first content
    and the writes of the signal handler.  A read at the instant of a write
    sees the written content. *)
Definition shared (initial : Config) (ws : list (Z * Config)) : Shared :=
  fun now => fold_left (fun c w => if fst w <=? now then snd w else c) ws initial.

(** How [main] leaves its startup: by [os.Exit(code)], by returning (the
    deferred calls run, and a Go program whose [main] returns exits with
    status 0), or not at all: the listener is bound, the goroutines of
    [handleSignals] and [acceptConnections] run on the configuration, and
    [main] waits for the root context. *)
Inductive Outcome :=
| os_Exit (code : Z)
| Returned
| Serving (cfg : Config).

Definition exit_status (o : Outcome) : option Z :=
  match o with
  | os_Exit code => Some code
  | Returned => Some 0
  | Serving _ => None
  end.

(** [main] up to [<-ctx.Done()]. *)
Definition main (sys : System) : Outcome * list Event :=
  match Load (fs sys) (toml sys) appName with
  | (_, _, Some err) =>
    (os_Exit 1, [EvStderr (wrap "Failed to load configuration" err)])
  | (None, _, None) => (os_Exit 2, [EvStderr "panic: nil pointer dereference"])
  | (Some cfg, configExists, None) =>
    let saved :=
      if negb configExists then
        match Save (fs sys) (toml sys) (Some cfg) appName with
        | Some _ => [EvStderr "Failed to save configuration"]
        | None => []
        end
      else [] in
    match logger_Init sys (Logging cfg) with
    | Some err =>
      (os_Exit 1, saved ++ [EvStderr (wrap "Failed to initialize logger" err)])
    | None =>
      let started := saved ++ [EvLog LevelInfo "Starting Mail Hub Relay Service"] in
      match net_Listen sys (InternalAddr (Server cfg)) with
      | Some err =>
        (* return: the deferred logger.Shutdown(ctx) and cancel() run *)
        (Returned,
         started ++ [EvLog LevelError "Failed to start TCP listener"; EvLoggerShutdown])
      | None => (Serving cfg, started)
      end
    end
  end.

(** *** The retry loop as a relation

    [Delivery w ctx e c a now acts fin]: under a configuration [c] that
    nobody writes, the loop of [processEmail] entered at iteration [a] at
    the instant [now] does [acts] (logging apart) and returns at [fin].
    One constructor for each way an iteration ends. *)
Inductive Delivery (w : World) (ctx : Context) (e : Email) (c : Config)
  : Z -> Z -> list Event -> Z -> Prop :=
| D_exhausted a now :
    MaxRetries (Server c) <= a ->
    Delivery w ctx e c a now [] now
| D_success a now took :
    a < MaxRetries (Server c) ->
    SendWithStartTLS w a (session c e) = (took, None) ->
    Delivery w ctx e c a now
      [EvSend (session c e) now (now + Z.max 0 took) None]
      (now + Z.max 0 took)
| D_abandon a now took err :
    a < MaxRetries (Server c) ->
    MaxRetries (Server c) - 1 <= a ->
    SendWithStartTLS w a (session c e) = (took, Some err) ->
    Delivery w ctx e c a now
      [EvSend (session c e) now (now + Z.max 0 took) (Some err)]
      (now + Z.max 0 took)
| D_retry a now took err woke rest fin :
    a < MaxRetries (Server c) - 1 ->
    SendWithStartTLS w a (session c e) = (took, Some err) ->
    select_After_or_Done ctx (RetryDelay (Server c)) (now + Z.max 0 took)
      (pick_timer w a) = TimerFired woke ->
    Delivery w ctx e c (a + 1) woke rest fin ->
    Delivery w ctx e c a now
      (EvSend (session c e) now (now + Z.max 0 took) (Some err)
         :: EvTimer (now + Z.max 0 took) woke :: rest)
      fin
| D_cancel a now took err woke :
    a < MaxRetries (Server c) - 1 ->
    SendWithStartTLS w a (session c e) = (took, Some err) ->
    select_After_or_Done ctx (RetryDelay (Server c)) (now + Z.max 0 took)
      (pick_timer w a) = CtxDone woke ->
    Delivery w ctx e c a now
      [EvSend (session c e) now (now + Z.max 0 took) (Some err); EvCtxDone woke]
      woke.

(** [DeliveryOn w ctx e cfg a now acts fin]: the same loop on the shared
    object [cfg], which the signal handler may write while the loop runs.
    Every use of [cfg] in the loop is a read of the object at the instant
    of the use: the test of the loop and the session at the instant the
    iteration begins; the test for a further attempt and the delay of the
    timer at the instant the failed attempt returned. *)
Inductive DeliveryOn (w : World) (ctx : Context) (e : Email) (cfg : Shared)
  : Z -> Z -> list Event -> Z -> Prop :=
| S_exhausted a now :
    MaxRetries (Server (cfg now)) <= a ->
    DeliveryOn w ctx e cfg a now [] now
| S_success a now took :
    a < MaxRetries (Server (cfg now)) ->
    SendWithStartTLS w a (session (cfg now) e) = (took, None) ->
    DeliveryOn w ctx e cfg a now
      [EvSend (session (cfg now) e) now (now + Z.max 0 took) None]
      (now + Z.max 0 took)
| S_abandon a now took err :
    a < MaxRetries (Server (cfg now)) ->
    MaxRetries (Server (cfg (now + Z.max 0 took))) - 1 <= a ->
    SendWithStartTLS w a (session (cfg now) e) = (took, Some err) ->
    DeliveryOn w ctx e cfg a now
      [EvSend (session (cfg now) e) now (now + Z.max 0 took) (Some err)]
      (now + Z.max 0 took)
| S_retry a now took err woke rest fin :
    a < MaxRetries (Server (cfg now)) ->
    a < MaxRetries (Server (cfg (now + Z.max 0 took))) - 1 ->
    SendWithStartTLS w a (session (cfg now) e) = (took, Some err) ->
    select_After_or_Done ctx (RetryDelay (Server (cfg (now + Z.max 0 took))))
      (now + Z.max 0 took) (pick_timer w a) = TimerFired woke ->
    DeliveryOn w ctx e cfg (a + 1) woke rest fin ->
    DeliveryOn w ctx e cfg a now
      (EvSend (session (cfg now) e) now (now + Z.max 0 took) (Some err)
         :: EvTimer (now + Z.max 0 took) woke :: rest)
      fin
| S_cancel a now took err woke :
    a < MaxRetries (Server (cfg now)) ->
    a < MaxRetries (Server (cfg (now + Z.max 0 took))) - 1 ->
    SendWithStartTLS w a (session (cfg now) e) = (took, Some err) ->
    select_After_or_Done ctx (RetryDelay (Server (cfg (now + Z.max 0 took))))
      (now + Z.max 0 took) (pick_timer w a) = CtxDone woke ->
    DeliveryOn w ctx e cfg a now
      [EvSend (session (cfg now) e) now (now + Z.max 0 took) (Some err); EvCtxDone woke]
      woke.

(** *** The acceptor *)

(** What [acceptConnections] has done when it returns, or when the results
    of [Accept] it was given are used up and it waits in [Accept]: the
    connections it handed to a goroutine of [handleConnection], each with
    the instant, its log, and the instant at which it returned. *)
Record Accepted := mkAccepted {
  dispatched : list (Z * Conn);
  accept_log : list Event;
  returned : option Z
}.

(** [select { case <-ctx.Done(): ... default: ... }] at [now]: the first
    case is ready when the context is done by then. *)
Definition is_done (ctx : Context) (now : Z) : bool :=
  match done_at ctx with
  | Some c => c <=? now
  | None => false
  end.

(** The loop of [acceptConnections] over what [listener.Accept] returns,
    each result with the instant at which it comes. *)
Fixpoint acceptLoop (ctx : Context) (accepts : list (Z * result Conn)) : Accepted :=
  match accepts with
  | [] => {| dispatched := []; accept_log := []; returned := None |}
  | (now, Err err) :: accepts =>
    if is_done ctx now then
      {| dispatched := [];
         accept_log := [EvLog LevelDebug "Stopping connection acceptor"];
         returned := Some now |}
    else
      let rest := acceptLoop ctx accepts in
      {| dispatched := dispatched rest;
         accept_log := EvLog LevelError "Failed to accept connection" :: accept_log rest;
         returned := returned rest |}
  | (now, Ok conn) :: accepts =>
    let rest := acceptLoop ctx accepts in
    {| dispatched := (now, conn) :: dispatched rest;
       accept_log := accept_log rest;
       returned := returned rest |}
  end.

Definition acceptConnections (ctx : Context) (accepts : list (Z * result Conn)) : Accepted :=
  let a := acceptLoop ctx accepts in
  {| dispatched := dispatched a;
     accept_log := EvLog LevelDebug "Starting connection acceptor" :: accept_log a;
     returned := returned a |}.

End mhrs.

(** ** The JSON encoder of the Go standard library, on an [EmailRequest]

    [json.Marshal] writes the struct as an object with its three keys in
    declaration order, a string with the escapes of [appendString] (HTML
    escaping on), and a byte slice as a base64 string (standard alphabet,
    padded) or as null when the slice is nil.  It returns no error on this
    struct. *)

Module json.

Definition byte_of (n : N) : byte :=
  match Byte.of_N n with
  | Some b => b
  | None => x00
  end.

(** The digits of [hex = "0123456789abcdef"]. *)
Definition hex (n : N) : byte :=
  if (n <? 10)%N then byte_of (48 + n) else byte_of (87 + n).

Definition htmlSafe (b : byte) : bool :=
  let n := Byte.to_N b in
  ((32 <=? n) && (n <? 128))%N &&
  negb (Byte.eqb b x22) && negb (Byte.eqb b x5c) &&
  negb (Byte.eqb b x3c) && negb (Byte.eqb b x3e) && negb (Byte.eqb b x26).

(** The escape of a byte below [utf8.RuneSelf] that is not html-safe. *)
Definition escape (b : byte) : list byte :=
  match b with
  | x5c => [x5c; x5c]
  | x22 => [x5c; x22]
  | x08 => [x5c; x62]
  | x0c => [x5c; x66]
  | x0a => [x5c; x6e]
  | x0d => [x5c; x72]
  | x09 => [x5c; x74]
  | _ => [x5c; x75; x30; x30; hex (Byte.to_N b / 16); hex (Byte.to_N b mod 16)]
  end.

Definition between (lo hi : N) (b : byte) : bool :=
  ((lo <=? Byte.to_N b) && (Byte.to_N b <=? hi))%N.

(** [utf8.DecodeRuneInString] on a first byte of 0x80 or more and the bytes
    that follow: the size of the encoding when it is valid, [None] for
    [RuneError] with size 1. *)
Definition rune_size (b : byte) (rest : list byte) : option nat :=
  let n := Byte.to_N b in
  if between 194 223 b then
    match rest with
    | c1 :: _ => if between 128 191 c1 then Some 2%nat else None
    | _ => None
    end
  else if between 224 239 b then
    let lo := if (n =? 224)%N then 160%N else 128%N in
    let hi := if (n =? 237)%N then 159%N else 191%N in
    match rest with
    | c1 :: c2 :: _ =>
      if between lo hi c1 && between 128 191 c2 then Some 3%nat else None
    | _ => None
    end
  else if between 240 244 b then
    let lo := if (n =? 240)%N then 144%N else 128%N in
    let hi := if (n =? 244)%N then 143%N else 191%N in
    match rest with
    | c1 :: c2 :: c3 :: _ =>
      if between lo hi c1 && between 128 191 c2 && between 128 191 c3
      then Some 4%nat else None
    | _ => None
    end
  else None.

(** U+2028 and U+2029 are E2 80 A8 and E2 80 A9. *)
Definition line_separator (b : byte) (rest : list byte) : option byte :=
  match b, rest with
  | xe2, x80 :: xa8 :: _ => Some x38
  | xe2, x80 :: xa9 :: _ => Some x39
  | _, _ => None
  end.

(** The inside of the quotes of [appendString].  [copy] counts the
    continuation bytes of a valid rune still to be copied, [drop] the ones
    of an escaped line separator still to be skipped. *)
Fixpoint quoted (copy drop : nat) (src : list byte) : list byte :=
  match src with
  | [] => []
  | b :: rest =>
    match copy, drop with
    | S copy, _ => b :: quoted copy drop rest
    | O, S drop => quoted O drop rest
    | O, O =>
      if (Byte.to_N b <? 128)%N then
        (if htmlSafe b then [b] else escape b) ++ quoted O O rest
      else
        match rune_size b rest with
        | None => [x5c; x75; x66; x66; x66; x64] ++ quoted O O rest
        | Some size =>
          match line_separator b rest with
          | Some digit => [x5c; x75; x32; x30; x32; digit] ++ quoted O 2 rest
          | None => b :: quoted (pred size) O rest
          end
        end
    end
  end.

Definition appendString (src : string) : list byte :=
  x22 :: quoted O O (list_byte_of_string src) ++ [x22].

(** [base64.StdEncoding]. *)
Definition alphabet (n : N) : byte :=
  if (n <? 26)%N then byte_of (65 + n)
  else if (n <? 52)%N then byte_of (97 + (n - 26))
  else if (n <? 62)%N then byte_of (48 + (n - 52))
  else if (n =? 62)%N then x2b
  else x2f.

Fixpoint base64 (src : list byte) : list byte :=
  match src with
  | [] => []
  | [a] =>
    let n := (Byte.to_N a * 65536)%N in
    [alphabet (n / 262144); alphabet (n / 4096 mod 64); x3d; x3d]
  | [a; b] =>
    let n := (Byte.to_N a * 65536 + Byte.to_N b * 256)%N in
    [alphabet (n / 262144); alphabet (n / 4096 mod 64); alphabet (n / 64 mod 64); x3d]
  | a :: b :: c :: rest =>
    let n := (Byte.to_N a * 65536 + Byte.to_N b * 256 + Byte.to_N c)%N in
    [alphabet (n / 262144); alphabet (n / 4096 mod 64);
     alphabet (n / 64 mod 64); alphabet (n mod 64)] ++ base64 rest
  end.

Definition key (name : string) : list byte :=
  x22 :: list_byte_of_string name ++ [x22; x3a].

Definition Marshal (req : EmailRequest) : list byte :=
  [x7b] ++ key "recipient" ++ appendString (Recipient req) ++
  [x2c] ++ key "subject" ++ appendString (Subject req) ++
  [x2c] ++ key "body" ++
  match Body req with
  | None => list_byte_of_string "null"
  | Some body => x22 :: base64 body ++ [x22]
  end ++ [x7d].

End json.

(** ** The producers *)

(** The TCP connection of a producer to the relay.  [Write] returns [None]
    when all the bytes went out, or how many did and the error: an
    [io.Writer] returns an error whenever it writes less than it was
    given. *)
Record Net := mkNet {
  Dial : string -> option error;
  SetWriteDeadline : option error;
  Write : list byte -> option (nat * error)
}.

(** The effect of [conn.Write(data)] on the connection, and its error. *)
Definition conn_Write (net : Net) (data : list byte) : Event * option error :=
  match Write net data with
  | None => (EvWrite data, None)
  | Some (n, err) => (EvWrite (firstn n data), Some err)
  end.

(** The bytes a trace puts on the connection, one element for each Write. *)
Fixpoint wire (tr : list Event) : list (list byte) :=
  match tr with
  | [] => []
  | EvWrite data :: tr => data :: wire tr
  | _ :: tr => wire tr
  end.

(** *** Packages strings, bytes and bufio of the Go standard library, as
    the producers use them *)

Module strings.

(** [strings.Contains(s, sep)] for a separator of one byte. *)
Fixpoint Contains (s : string) (sep : ascii) : bool :=
  match s with
  | EmptyString => false
  | String c s => Ascii.eqb c sep || Contains s sep
  end.

(** [strings.SplitN(s, sep, 2)] for a separator of one byte: [s] alone when
    the separator is not in it, else what comes before its first occurrence
    and what comes after. *)
Fixpoint SplitN2 (s : string) (sep : ascii) : list string :=
  match s with
  | EmptyString => [EmptyString]
  | String c s =>
    if Ascii.eqb c sep then [EmptyString; s]
    else
      match SplitN2 s sep with
      | before :: after => String c before :: after
      | [] => []
      end
  end.

Definition code (c : ascii) : N := N_of_ascii c.

(** The white space of [unicode.IsSpace] below [utf8.RuneSelf]. *)
Definition asciiSpace (c : ascii) : bool :=
  ((9 <=? code c) && (code c <=? 13) || (code c =? 32))%N.

(** [s] without its leading white space: the runes of [unicode.IsSpace],
    U+0009 to U+000D, U+0020, U+0085, U+00A0, U+1680, U+2000 to U+200A,
    U+2028, U+2029, U+202F, U+205F and U+3000, in their UTF-8 encoding. *)
Fixpoint TrimLeftSpace (s : string) : string :=
  match s with
  | EmptyString => EmptyString
  | String c rest =>
    if asciiSpace c then TrimLeftSpace rest
    else
      match rest with
      | String c1 rest1 =>
        if (code c =? 194)%N && ((code c1 =? 133) || (code c1 =? 160))%N
        then TrimLeftSpace rest1
        else
          match rest1 with
          | String c2 rest2 =>
            if ((code c =? 225) && (code c1 =? 154) && (code c2 =? 128))%N
               || ((code c =? 226) && (code c1 =? 128) &&
                   ((128 <=? code c2) && (code c2 <=? 138)
                    || (code c2 =? 168) || (code c2 =? 169) || (code c2 =? 175)))%N
               || ((code c =? 226) && (code c1 =? 129) && (code c2 =? 159))%N
               || ((code c =? 227) && (code c1 =? 128) && (code c2 =? 128))%N
            then TrimLeftSpace rest2
            else s
          | EmptyString => s
          end
      | EmptyString => s
      end
  end.

Fixpoint reverse (s acc : string) : string :=
  match s with
  | EmptyString => acc
  | String c s => reverse s (String c acc)
  end.

(** The same from the end of the reversed string: the encodings are read
    last byte first, as [utf8.DecodeLastRuneInString] finds them. *)
Fixpoint TrimLeftSpaceReversed (s : string) : string :=
  match s with
  | EmptyString => EmptyString
  | String c rest =>
    if asciiSpace c then TrimLeftSpaceReversed rest
    else
      match rest with
      | String c1 rest1 =>
        if (code c1 =? 194)%N && ((code c =? 133) || (code c =? 160))%N
        then TrimLeftSpaceReversed rest1
        else
          match rest1 with
          | String c2 rest2 =>
            if ((code c2 =? 225) && (code c1 =? 154) && (code c =? 128))%N
               || ((code c2 =? 226) && (code c1 =? 128) &&
                   ((128 <=? code c) && (code c <=? 138)
                    || (code c =? 168) || (code c =? 169) || (code c =? 175)))%N
               || ((code c2 =? 226) && (code c1 =? 129) && (code c =? 159))%N
               || ((code c2 =? 227) && (code c1 =? 128) && (code c =? 128))%N
            then TrimLeftSpaceReversed rest2
            else s
          | EmptyString => s
          end
      | EmptyString => s
      end
  end.

(** [strings.TrimSpace]. *)
Definition TrimSpace (s : string) : string :=
  reverse (TrimLeftSpaceReversed (reverse (TrimLeftSpace s) EmptyString)) EmptyString.

End strings.

Module bytes.

Fixpoint dropTrailing (c : ascii) (s : string) : string :=
  match s with
  | EmptyString => EmptyString
  | String x s =>
    match dropTrailing c s with
    | EmptyString => if Ascii.eqb x c then EmptyString else String x EmptyString
    | kept => String x kept
    end
  end.

(** [bytes.TrimRight(b.Bytes(), cutset)] for a cutset of one byte, on the
    content of a [bytes.Buffer]: nil for an empty buffer, else the content
    without its trailing run of that byte, which may be empty but is not
    nil. *)
Definition TrimRight (content : string) (cutset : ascii) : option (list byte) :=
  match content with
  | EmptyString => None
  | _ => Some (list_byte_of_string (dropTrailing cutset content))
  end.

End bytes.

Module bufio.

(** A [bufio.Scanner] over a reader, with the default split function: the
    lines [Scan] finds, in order, and what [Err] returns once [Scan] has
    been called a number of times.  An error of the reader is recorded when
    it is read, and the lines still in the buffer are found after it, so
    [Err] may return an error before [Scan] has returned false; at the end
    of the input it returns nil. *)
Record Scanner := mkScanner {
  lines : list string;
  Err_ : nat -> option error
}.

End bufio.

(** *** mhrc, the sendmail-compatible client *)

Module mhrc.
Import config.

Definition sendToMHRS (net : Net) (req : EmailRequest) (cfg : Config)
  : option error * list Event :=
  match Dial net (InternalAddr (Server cfg)) with
  | Some err => (Some (wrap "error connecting to MHRS" err), [])
  | None =>
    (* defer conn.Close() *)
    match SetWriteDeadline net with
    | Some err => (Some (wrap "error setting write deadline" err), [EvClose])
    | None =>
      let jsonData := json.Marshal req in
      let jsonData := jsonData ++ [x0a] in
      match conn_Write net jsonData with
      | (written, Some err) => (Some (wrap "error sending data" err), [written; EvClose])
      | (written, None) => (None, [written; EvClose])
      end
    end
  end.

Definition appName : string := "mhrc".

(** Exit codes following the sendmail conventions of FreeBSD. *)
Definition EX_OK : Z := 0.
Definition EX_USAGE : Z := 64.
Definition EX_NOUSER : Z := 67.
Definition EX_UNAVAILABLE : Z := 69.
Definition EX_TEMPFAIL : Z := 75.

(** A [map[string]string]: the entries set, the latest first.  A key that
    was never set reads as the empty string. *)
Definition Headers := list (string * string).

Definition header_set (key value : string) (h : Headers) : Headers :=
  (key, value) :: h.

Fixpoint header_get (h : Headers) (key : string) : string :=
  match h with
  | [] => ""
  | (k, v) :: h => if String.eqb k key then v else header_get h key
  end.

(** [EmailMessage]: the headers and the content of the body buffer. *)
Record EmailMessage := mkEmailMessage {
  headers : Headers;
  body : string
}.

Definition newline : ascii := "010".

(** The loop of [parseMessage] over the lines the scanner finds, after
    [scans] calls of [Scan].  The number returned is that of the calls of
    [Scan] when the loop is left, through [break] or because [Scan]
    returned false. *)
Fixpoint parseLines (ignoreDots : bool) (lines : list string) (scans : nat)
  (inHeaders : bool) (msg : EmailMessage) : EmailMessage * nat :=
  match lines with
  | [] => (msg, S scans)
  | line :: lines =>
    let scans := S scans in
    if inHeaders then
      if is_empty line then parseLines ignoreDots lines scans false msg
      else if strings.Contains line ":" then
        let parts := strings.SplitN2 line ":" in
        let key := strings.TrimSpace (nth 0 parts "") in
        let value := strings.TrimSpace (nth 1 parts "") in
        parseLines ignoreDots lines scans true
          {| headers := header_set key value (headers msg); body := body msg |}
      else parseLines ignoreDots lines scans true msg
    else if negb ignoreDots && String.eqb line "." then (msg, scans)
    else
      parseLines ignoreDots lines scans false
        {| headers := headers msg;
           body := (body msg ++ line ++ String newline "")%string |}
  end.

(** [parseMessage]: [scanner.Err()] is read after the loop, however the
    loop was left. *)
Definition parseMessage (r : bufio.Scanner) (ignoreDots : bool) : result EmailMessage :=
  let '(msg, scans) :=
    parseLines ignoreDots (bufio.lines r) 0 true {| headers := []; body := "" |} in
  match bufio.Err_ r scans with
  | Some err => Err err
  | None => Ok msg
  end.

(** The command line after [flag.Parse]: the flags and the arguments that
    follow them. *)
Record Flags := mkFlags {
  flag_f : string;
  flag_t : bool;
  flag_i : bool;
  flag_s : string;
  flag_bp : bool;
  flag_bi : bool;
  flag_bh : bool;
  flag_bpurg : bool;
  Args : list string
}.

(** What [main] finds outside the process. *)
Record Process := mkProcess {
  fs : FileSystem;
  toml : Toml;
  Stdin : bufio.Scanner;
  net : Net
}.

Inductive Printed :=
| PrintConfig (cfg : option Config)   (* fmt.Println(cfg) *)
| PrintLine (line : string).      (* fmt.Println(line) *)

(** How [main] ends: the status of [os.Exit], what it printed on the
    standard output and on the standard error, and what it did on its
    connection to the relay. *)
Record Exit := mkExit {
  status : Z;
  stdout : list Printed;
  stderr : list string;
  relay : list Event
}.

(** The request [main] builds from the flags and the parsed message, once
    the recipient is known. *)
Definition request (flags : Flags) (msg : EmailMessage) (recipient : string)
  : EmailRequest :=
  let emailSubject := flag_s flags in
  let emailSubject :=
    if is_empty emailSubject then header_get (headers msg) "Subject"
    else emailSubject in
  let emailSubject :=
    if is_empty emailSubject then "Message from mhrc" else emailSubject in
  let bodyBytes := bytes.TrimRight (body msg) newline in
  {| Recipient := recipient; Subject := emailSubject; Body := bodyBytes |}.

(** [main].  [Load] returns a nil pointer only together with an error
    ([Load_nil_only_with_error] below); a nil pointer without one would be
    printed and then dereferenced where [sendToMHRS] reads the address of
    the relay, before it dials. *)
Definition main (p : Process) (flags : Flags) : Exit :=
  match Load (fs p) (toml p) appName with
  | (_, _, Some err) =>
    {| status := EX_UNAVAILABLE; stdout := [];
       stderr := [wrap "Failed to load configuration" err]; relay := [] |}
  | (cfg, _, None) =>
    let printed := [PrintConfig cfg] in
    if flag_bp flags || flag_bi flags || flag_bh flags || flag_bpurg flags then
      {| status := EX_OK; stdout := printed ++ [PrintLine "Mail queue is empty"];
         stderr := []; relay := [] |}
    else
      match parseMessage (Stdin p) (flag_i flags) with
      | Err err =>
        {| status := EX_USAGE; stdout := printed;
           stderr := [wrap "Error reading message" err]; relay := [] |}
      | Ok msg =>
        let recipient : string + Exit :=
          if flag_t flags then
            let recipient := header_get (headers msg) "To" in
            if is_empty recipient then
              inr {| status := EX_NOUSER; stdout := printed;
                     stderr := ["No recipient specified in headers"]; relay := [] |}
            else inl recipient
          else
            match Args flags with
            | arg0 :: _ => inl arg0
            | [] =>
              inr {| status := EX_USAGE; stdout := printed;
                     stderr := ["No recipient specified"]; relay := [] |}
            end in
        match recipient with
        | inr exit => exit
        | inl recipient =>
          let req := request flags msg recipient in
          match cfg with
          | None =>
            {| status := 2; stdout := printed;
               stderr := ["panic: nil pointer dereference"]; relay := [] |}
          | Some cfg =>
            match sendToMHRS (net p) req cfg with
            | (Some err, evs) =>
              {| status := EX_TEMPFAIL; stdout := printed;
                 stderr := [wrap "Error sending email" err]; relay := evs |}
            | (None, evs) =>
              {| status := EX_OK; stdout := printed; stderr := []; relay := evs |}
            end
          end
        end
      end
  end.

End mhrc.

(** *** submitf, the HTTP form adapter *)

Module submitf.
Import config.

Record FormData := mkFormData {
  Name_ : string;
  Email_ : string;
  Message : string
}.

Definition formatEmailBody (form : FormData) : string :=
  ("New contact form submission:" ++ String "010" (String "010" "") ++
   "Name: " ++ Name_ form ++ String "010" "" ++
   "Email: " ++ Email_ form ++ String "010" (String "010" "") ++
   "Message:" ++ String "010" "" ++ Message form)%string.

(** The request [sendToMHRS] builds from the form. *)
Definition request (form : FormData) (cfg : Config) : EmailRequest :=
  let emailBody := formatEmailBody form in
  {| Recipient := FromAddr (SMTP cfg);
     Subject := ("Contact Form Submission from " ++ Name_ form)%string;
     Body := Some (list_byte_of_string emailBody) |}.

Definition sendToMHRS (net : Net) (form : FormData) (cfg : Config)
  : option error * list Event :=
  let req := request form cfg in
  let jsonData := json.Marshal req in
  let prepared := [EvLog LevelDebug "Preparing email request for MHRS";
                   EvLog LevelDebug "Connecting to MHRS"] in
  match Dial net (InternalAddr (Server cfg)) with
  | Some err => (Some err, prepared)
  | None =>
    (* defer conn.Close() *)
    match SetWriteDeadline net with
    | Some err =>
      (Some err, prepared ++ [EvLog LevelError "Failed to set write deadline"; EvClose])
    | None =>
      match conn_Write net jsonData with
      | (written, Some err) =>
        (Some err, prepared ++ [written; EvLog LevelError "Failed to write to MHRS"; EvClose])
      | (written, None) =>
        (None, prepared ++ [written; EvLog LevelInfo "Email request sent to MHRS"; EvClose])
      end
    end
  end.

Definition appName : string := "submitf".

(** [validateForm]. *)
Definition validateForm (form : FormData) : option error :=
  if is_empty (strings.TrimSpace (Name_ form)) then Some "name is required"
  else if negb (strings.Contains (Email_ form) "@") then Some "invalid email address"
  else if is_empty (strings.TrimSpace (Message form)) then Some "message is required"
  else None.

(** What the handler reads of an [http.Request]: the method, the Origin
    header (empty when absent) and what the JSON decoder makes of the
    body. *)
Record Request := mkRequest {
  Method : string;
  Origin : string;
  decoded : result FormData
}.

(** What the handler writes to the [http.ResponseWriter]: the headers it
    sets, the latest first, the status code and the body. *)
Record Response := mkResponse {
  header : list (string * string);
  code : Z;
  written : string
}.

Definition StatusOK : Z := 200.
Definition StatusBadRequest : Z := 400.
Definition StatusForbidden : Z := 403.
Definition StatusMethodNotAllowed : Z := 405.
Definition StatusInternalServerError : Z := 500.

(** [http.Error(w, msg, code)]: a plain-text body, the message and a
    newline. *)
Definition http_Error (h : list (string * string)) (msg : string) (code : Z) : Response :=
  {| header := ("X-Content-Type-Options", "nosniff")
                 :: ("Content-Type", "text/plain; charset=utf-8") :: h;
     code := code;
     written := (msg ++ String "010" "")%string |}.

(** The answer of a submission that went through: [{"status":"success"}]
    and a newline, as [json.NewEncoder(w).Encode] writes the map. *)
Definition success_body : string :=
  let q := String "034" "" in
  ("{" ++ q ++ "status" ++ q ++ ":" ++ q ++ "success" ++ q ++ "}" ++ String "010" "")%string.

(** The handler [handleSubmit(ctx, cfg)] returns, on one request: the
    response, and the log entries and the traffic to the relay. *)
Definition handleSubmit (net : Net) (cfg : Config) (r : Request) : Response * list Event :=
  let started := [EvLog LevelDebug "Handling new submission request"] in
  let origin := Origin r in
  let h := [("Access-Control-Max-Age", "86400");
            ("Access-Control-Allow-Headers", "Content-Type");
            ("Access-Control-Allow-Methods", "POST, OPTIONS")] in
  let originAllowed := existsb (String.eqb origin) (AllowedOrigins (Server cfg)) in
  let h := if originAllowed then ("Access-Control-Allow-Origin", origin) :: h else h in
  if String.eqb (Method r) "OPTIONS" then
    ({| header := h;
        code := if originAllowed then StatusOK else StatusForbidden;
        written := "" |}, started)
  else if negb originAllowed then
    (http_Error h "Forbidden" StatusForbidden,
     started ++ [EvLog LevelWarn "Invalid origin"])
  else if negb (String.eqb (Method r) "POST") then
    (http_Error h "Method not allowed" StatusMethodNotAllowed,
     started ++ [EvLog LevelWarn "Invalid request method"])
  else
    match decoded r with
    | Err err =>
      (http_Error h "Invalid request body" StatusBadRequest,
       started ++ [EvLog LevelError "Failed to decode request body"])
    | Ok form =>
      let started := started ++ [EvLog LevelDebug "Received form submission"] in
      match validateForm form with
      | Some err =>
        (http_Error h err StatusBadRequest,
         started ++ [EvLog LevelError "Form validation failed"])
      | None =>
        match sendToMHRS net form cfg with
        | (Some err, evs) =>
          (http_Error h "Failed to process submission" StatusInternalServerError,
           started ++ evs ++ [EvLog LevelError "Failed to send to MHRS"])
        | (None, evs) =>
          ({| header := h; code := StatusOK; written := success_body |},
           started ++ evs ++ [EvLog LevelInfo "Form submission processed successfully"])
        end
      end
    end.

End submitf.

(** ** Observations on traces *)

Import config mhrs.

(** The events that act on the connection of the caller. *)
Definition on_conn (e : Event) : bool :=
  match e with
  | EvWrite _ | EvClose => true
  | _ => false
  end.

(** What a transport invocation shows of the configuration: a delivery
    that runs on the single configuration [c] opens every session with the
    settings of [c], for the message it built with the sender of [c]. *)
Definition observes (c : Config) (req : EmailRequest) (e : Event) : Prop :=
  match e with
  | EvSend s _ _ _ => s = session c (message req c)
  | _ => True
  end.

(** ** Inputs: the scenarios of the specification and the systems the
    theorems are instantiated on *)

(** The request of scenarios A to E. *)
Definition hello : EmailRequest :=
  {| Recipient := "a@b.com";
     Subject := "hi";
     Body := Some (list_byte_of_string "hello") |}.

(** Scenario B: the upstream server refuses the first two attempts and
    accepts the third; each call takes 7 ns.  The decoder is the one of
    scenario D: it rejects the stream. *)
Definition refuses_twice : World :=
  {| json_Decode := fun _ => Err "unexpected end of JSON input";
     SendWithStartTLS := fun attempt _ =>
       (7, if attempt <? 2 then Some "connection refused" else None);
     pick_timer := fun _ => true |}.

(** Scenario C: the upstream server refuses every attempt. *)
Definition always_refuses : World :=
  {| json_Decode := fun _ => Err "unexpected end of JSON input";
     SendWithStartTLS := fun _ _ => (7, Some "connection refused");
     pick_timer := fun _ => true |}.

(** Scenario A: the decoder reads the request and the upstream server
    accepts the first attempt. *)
Definition accepts : World :=
  {| json_Decode := fun _ => Ok hello;
     SendWithStartTLS := fun _ _ => (7, None);
     pick_timer := fun _ => true |}.

Definition well_formed : Conn :=
  {| RemoteAddr := "127.0.0.1:40000";
     stream := json.Marshal hello ++ [x0a];
     read_time := 3 |}.

(** Scenario D: a stream the decoder rejects. *)
Definition malformed : Conn :=
  {| RemoteAddr := "127.0.0.1:40000";
     stream := list_byte_of_string "{recipient";
     read_time := 3 |}.

(** A system with no configuration file: the directory can be made, the
    file is not there, the logger starts and the address is free. *)
Definition no_file : System :=
  {| fs := {| os_MkdirAll := fun _ => None;
              os_Stat := fun _ => Some "no such file or directory";
              os_ReadFile := fun _ => Err "no such file or directory";
              os_WriteFile := fun _ _ => None |};
     toml := {| Unmarshal := fun _ c => Ok c; Marshal := fun _ => Ok [] |};
     logger_Init := fun _ => None;
     net_Listen := fun _ => None |}.

(** The same system with the address of the listener taken. *)
Definition address_in_use : System :=
  {| fs := fs no_file;
     toml := toml no_file;
     logger_Init := logger_Init no_file;
     net_Listen := fun _ => Some "bind: address already in use" |}.

(** An active configuration that differs from the defaults. *)
Definition tuned : Config :=
  {| SMTP := SMTP (namedDefault appName);
     Server := {| InternalAddr := "localhost:2525";
                  ExternalAddr := "localhost:8845";
                  Timeout := 1 * Minute;
                  RetryDelay := 2 * Second;
                  MaxRetries := 5;
                  AllowedOrigins := [] |};
     Logging := Logging (namedDefault appName) |}.

(** A configuration with another upstream server and another sender. *)
Definition other : Config :=
  {| SMTP := {| Host := "smtp.example.org";
                Port := "2587";
                FromAddr := "relay@example.org";
                AuthUser := "relay";
                AuthPass := "secret" |};
     Server := Server (namedDefault appName);
     Logging := Logging (namedDefault appName) |}.

(** A system whose configuration file holds [other]. *)
Definition file_rewritten : System :=
  {| fs := {| os_MkdirAll := fun _ => None;
              os_Stat := fun _ => None;
              os_ReadFile := fun _ => Ok [];
              os_WriteFile := fun _ _ => None |};
     toml := {| Unmarshal := fun _ _ => Ok other; Marshal := fun _ => Ok [] |};
     logger_Init := fun _ => None;
     net_Listen := fun _ => None |}.

(** The defaults with a single attempt. *)
Definition single : Config :=
  {| SMTP := SMTP (namedDefault appName);
     Server := {| InternalAddr := "localhost:2525";
                  ExternalAddr := "localhost:8845";
                  Timeout := 3 * Minute;
                  RetryDelay := 10 * Second;
                  MaxRetries := 1;
                  AllowedOrigins := [] |};
     Logging := Logging (namedDefault appName) |}.


(** The shared object of a server started on [single] whose file holds
    [other] when a SIGHUP comes at instant 5, and the one of a server
    started on the defaults whose file holds [tuned] by then. *)
Definition raised : Shared :=
  shared single (writes (handleSignals [(5, SIGHUP, file_rewritten)] single)).


(** A connection to the relay on which every call succeeds. *)
Definition connected : Net :=
  {| Dial := fun _ => None;
     SetWriteDeadline := None;
     Write := fun _ => None |}.

Definition contact : submitf.FormData :=
  {| submitf.Name_ := "Ann";
     submitf.Email_ := "ann@example.com";
     submitf.Message := "hi" |}.

(** ** Further observations *)

Definition is_timer (e : Event) : bool :=
  match e with EvTimer _ _ => true | _ => false end.

(** The connections among the results of [Accept], with their instants. *)
Fixpoint accepted (accepts : list (Z * result Conn)) : list (Z * Conn) :=
  match accepts with
  | [] => []
  | (now, Ok conn) :: accepts => (now, conn) :: accepted accepts
  | (_, Err _) :: accepts => accepted accepts
  end.



(** An accept error that comes while the context is not done. *)
Definition survivable (ctx : Context) (a : Z * result Conn) : Prop :=
  match a with
  | (now, Err _) => is_done ctx now = false
  | (_, Ok _) => True
  end.

(** ** Further inputs *)

(** The decoder reads the request; the upstream server refuses every
    attempt. *)
Definition accepts_then_refuses : World :=
  {| json_Decode := fun _ => Ok hello;
     SendWithStartTLS := fun _ _ => (7, Some "connection refused");
     pick_timer := fun _ => true |}.

(** The defaults with a request timeout of 15 seconds. *)
Definition hurried : Config :=
  {| SMTP := SMTP (namedDefault appName);
     Server := {| InternalAddr := "localhost:2525";
                  ExternalAddr := "localhost:8845";
                  Timeout := 15 * Second;
                  RetryDelay := 10 * Second;
                  MaxRetries := 3;
                  AllowedOrigins := [] |};
     Logging := Logging (namedDefault appName) |}.


(** The lines of a body, each with the newline [parseMessage] writes after
    it. *)
Fixpoint join_lines (lines : list string) : string :=
  match lines with
  | [] => ""
  | line :: lines => (line ++ String "010" "" ++ join_lines lines)%string
  end.

(** The message [parseMessage] starts from. *)
Definition blank : mhrc.EmailMessage :=
  {| mhrc.headers := []; mhrc.body := "" |}.

(** A message on the standard input: two headers, one of them repeated,
    a body of two lines, the dot that ends it, and a line after the dot;
    the reader fails after the last line. *)
Definition dotted : bufio.Scanner :=
  {| bufio.lines := ["To: first@example.com"; "Subject:  Report ";
                     "To: user@example.com"; "";
                     "Line one"; "Line two"; "."; "after the dot"];
     bufio.Err_ := fun scans =>
                     if Nat.leb 9 scans then Some "read error" else None |}.

(** A run of mhrc with the flag [-t] on [dotted], on a system without a
    configuration file and with the relay listening. *)
Definition sendmail_t : mhrc.Process :=
  {| mhrc.fs := fs no_file;
     mhrc.toml := toml no_file;
     mhrc.Stdin := dotted;
     mhrc.net := connected |}.

Definition flags_t : mhrc.Flags :=
  {| mhrc.flag_f := ""; mhrc.flag_t := true; mhrc.flag_i := false; mhrc.flag_s := "";
     mhrc.flag_bp := false; mhrc.flag_bi := false; mhrc.flag_bh := false;
     mhrc.flag_bpurg := false; mhrc.Args := [] |}.

(** A submission of [contact] from an origin the defaults allow. *)
Definition submission : submitf.Request :=
  {| submitf.Method := "POST";
     submitf.Origin := "https://example.com";
     submitf.decoded := Ok contact |}.

(** A preflight request from an origin the defaults do not allow. *)
Definition preflight : submitf.Request :=
  {| submitf.Method := "OPTIONS";
     submitf.Origin := "https://elsewhere.example";
     submitf.decoded := Err "EOF" |}.

(** A printable ASCII character other than the space: it is part of no
    white space. *)
Definition solid (c : ascii) : bool :=
  ((32 <? strings.code c) && (strings.code c <? 128))%N.

(** A string of ASCII white space only. *)
Fixpoint all_spaces (s : string) : bool :=
  match s with
  | EmptyString => true
  | String c s => strings.asciiSpace c && all_spaces s
  end.

(** * Verification *)

Ltac evaluate := vm_compute; try discriminate; try reflexivity.

(** ** The select of the retry loop *)

Lemma select_TimerFired ctx d now pick woke :
  select_After_or_Done ctx d now pick = TimerFired woke ->
  woke = now + Z.max 0 d /\
  forall c, done_at ctx = Some c -> now + Z.max 0 d <= Z.max now c.
Proof.
  unfold select_After_or_Done. destruct (done_at ctx) as [c|].
  - destruct (Z.ltb_spec (Z.max now c) (now + Z.max 0 d)); [discriminate|].
    destruct (Z.ltb_spec (now + Z.max 0 d) (Z.max now c));
      [|destruct pick; [|discriminate]];
      intros [= <-]; (split; [reflexivity|]); intros c' [= <-]; lia.
  - intros [= <-]. split; [reflexivity|]. discriminate.
Qed.

Lemma select_CtxDone ctx d now pick woke :
  select_After_or_Done ctx d now pick = CtxDone woke ->
  exists c, done_at ctx = Some c /\ woke = Z.max now c /\ woke <= now + Z.max 0 d.
Proof.
  unfold select_After_or_Done. destruct (done_at ctx) as [c|]; [|discriminate].
  destruct (Z.ltb_spec (Z.max now c) (now + Z.max 0 d)).
  - intros [= <-]. exists c. repeat split; lia.
  - destruct (Z.ltb_spec (now + Z.max 0 d) (Z.max now c)); [discriminate|].
    destruct pick; [discriminate|].
    intros [= <-]. exists c. repeat split; lia.
Qed.


Lemma is_empty_false (s : string) : is_empty s = false -> s <> "".
Proof. destruct s; simpl; congruence. Qed.

(** ** The retry loop under a configuration nobody writes *)

Section FixedConfiguration.

Variables (w : World) (ctx : Context) (e : Email) (c : Config).

Lemma attempts_Delivery (fuel : nat) :
  forall a now,
    MaxRetries (Server c) - a <= Z.of_nat fuel ->
    exists r, attempts w fuel ctx e (fixed c) a now = Some r /\
              Delivery w ctx e c a now (actions (events r)) (finished r).
Proof.
  induction fuel as [|fuel IH]; intros a now Hfuel.
  - simpl. destruct (Z.ltb_spec a (MaxRetries (Server (fixed c now)))) as [Hlt|Hge].
    + unfold fixed in Hlt. lia.
    + eexists. split; [reflexivity|]. simpl. now constructor.
  - cbn [attempts]. unfold fixed at 1.
    destruct (Z.ltb_spec a (MaxRetries (Server c))) as [Hlt|Hge];
      [|eexists; split; [reflexivity|]; simpl; now constructor].
    unfold sendEmail, fixed.
    destruct (SendWithStartTLS w a (session c e)) as [took [err|]] eqn:Hsend; cbn [finished events].
    + destruct (Z.ltb_spec a (MaxRetries (Server c) - 1)) as [Hmore|Hlast].
      * destruct (select_After_or_Done ctx (RetryDelay (Server c)) (now + Z.max 0 took)
                    (pick_timer w a)) as [woke|woke] eqn:Hsel.
        -- destruct (IH (a + 1) woke ltac:(lia)) as (rest & Hrest & Hd).
           unfold fixed in Hrest. rewrite Hrest.
           eexists. split; [reflexivity|]. cbn.
           eapply D_retry; eauto.
        -- eexists. split; [reflexivity|]. cbn.
           eapply D_cancel; eauto.
      * destruct (IH (a + 1) (now + Z.max 0 took) ltac:(lia)) as (rest & Hrest & Hd).
        unfold fixed in Hrest. rewrite Hrest.
        eexists. split; [reflexivity|]. cbn.
        inversion Hd; subst; try lia.
        unfold actions in H. rewrite <- H.
        eapply D_abandon; eauto.
    + eexists. split; [reflexivity|]. cbn.
      eapply D_success; eauto.
Qed.

Lemma Delivery_cancel_is_final a now acts fin :
  Delivery w ctx e c a now acts fin ->
  forall pre t post,
    acts = pre ++ EvCtxDone t :: post ->
    post = [] /\ fin = t /\
    exists pre' s st fi err,
      pre = pre' ++ [EvSend s st fi (Some err)] /\
      fi <= t <= fi + Z.max 0 (RetryDelay (Server c)) /\
      exists done, done_at ctx = Some done /\ done <= t.
Proof.
  induction 1 as [| | |a now took err woke rest fin Hlt Hsend Hsel Hrest IH
                  |a now took err woke Hlt Hsend Hsel];
    intros pre t post Hsplit.
  - destruct pre; discriminate.
  - destruct pre as [|p0 [|p1 pre]]; discriminate.
  - destruct pre as [|p0 [|p1 pre]]; discriminate.
  - destruct pre as [|p0 [|p1 pre]]; inversion Hsplit; subst.
    destruct (IH _ _ _ eq_refl) as (-> & -> & pre' & s & st & fi & err' & -> & Hfi & Hd).
    repeat split.
    exists (EvSend (session c e) now (now + Z.max 0 took) (Some err)
              :: EvTimer (now + Z.max 0 took) woke :: pre'), s, st, fi, err'.
    repeat split; auto; lia.
  - destruct pre as [|p0 [|p1 pre]]; inversion Hsplit; subst.
    + apply select_CtxDone in Hsel as (d & Hd & -> & Hle).
      repeat split.
      exists [], (session c e), now, (now + Z.max 0 took), err.
      repeat split; try lia. exists d. split; [assumption|lia].
    + destruct pre; discriminate.
Qed.

End FixedConfiguration.

Lemma sends_actions (tr : list Event) : sends (actions tr) = sends tr.
Proof.
  unfold sends, actions. induction tr as [|x tr IH]; [reflexivity|].
  destruct x; cbn; rewrite ?IH; reflexivity.
Qed.

(** [processEmail] under a configuration nobody writes: with fuel for
    [MaxRetries] iterations it returns, and its actions are a [Delivery]
    from iteration 0. *)
Lemma processEmail_Delivery w ctx req c now fuel :
  MaxRetries (Server c) <= Z.of_nat fuel ->
  exists r,
    processEmail w fuel ctx req (fixed c) now = Some r /\
    Delivery w ctx (message req c) c 0 now (actions (events r)) (finished r).
Proof.
  intros Hfuel. unfold processEmail.
  destruct (attempts_Delivery w ctx (message req c) c fuel 0 now ltac:(lia))
    as (r & Hr & Hd).
  unfold fixed at 1. rewrite Hr. eexists. split; [reflexivity|]. exact Hd.
Qed.

(** ** The retry loop on the shared object *)

Section SharedObject.

Variables (w : World) (ctx : Context) (e : Email) (cfg : Shared).

(** With fuel for the largest [MaxRetries] the object holds from [now] on,
    the loop returns, and its actions are a [DeliveryOn] the object. *)
Lemma attempts_DeliveryOn (fuel : nat) :
  forall a now,
    (forall t, now <= t -> MaxRetries (Server (cfg t)) - a <= Z.of_nat fuel) ->
    exists r, attempts w fuel ctx e cfg a now = Some r /\
              DeliveryOn w ctx e cfg a now (actions (events r)) (finished r).
Proof.
  induction fuel as [|fuel IH]; intros a now Hfuel.
  - simpl. destruct (Z.ltb_spec a (MaxRetries (Server (cfg now)))) as [Hlt|Hge].
    + specialize (Hfuel now ltac:(lia)). lia.
    + eexists. split; [reflexivity|]. simpl. now constructor.
  - cbn [attempts].
    destruct (Z.ltb_spec a (MaxRetries (Server (cfg now)))) as [Hlt|Hge];
      [|eexists; split; [reflexivity|]; simpl; now constructor].
    unfold sendEmail.
    destruct (SendWithStartTLS w a (session (cfg now) e)) as [took [err|]] eqn:Hsend;
      cbn [finished events].
    + destruct (Z.ltb_spec a (MaxRetries (Server (cfg (now + Z.max 0 took))) - 1))
        as [Hmore|Hlast].
      * destruct (select_After_or_Done ctx
                    (RetryDelay (Server (cfg (now + Z.max 0 took))))
                    (now + Z.max 0 took) (pick_timer w a)) as [woke|woke] eqn:Hsel.
        -- pose proof (select_TimerFired _ _ _ _ _ Hsel) as [Hwoke _].
           destruct (IH (a + 1) woke) as (rest & Hrest & Hd).
           { intros t Ht. specialize (Hfuel t ltac:(lia)). lia. }
           rewrite Hrest.
           eexists. split; [reflexivity|]. cbn.
           eapply S_retry; eauto.
        -- eexists. split; [reflexivity|]. cbn.
           eapply S_cancel; eauto.
      * assert (Hrest : attempts w fuel ctx e cfg (a + 1) (now + Z.max 0 took)
                        = Some {| events := []; finished := now + Z.max 0 took |}).
        { destruct fuel; cbn [attempts];
            destruct (Z.ltb_spec (a + 1)
                        (MaxRetries (Server (cfg (now + Z.max 0 took)))));
            try lia; reflexivity. }
        rewrite Hrest.
        eexists. split; [reflexivity|]. cbn.
        eapply S_abandon; eauto.
    + eexists. split; [reflexivity|]. cbn.
      eapply S_success; eauto.
Qed.

Lemma DeliveryOn_not_before a now acts fin :
  DeliveryOn w ctx e cfg a now acts fin -> now <= fin.
Proof.
  induction 1 as [| | |a now took err woke rest fin Hnow Hlt Hsend Hsel Hrest IH
                  |a now took err woke Hnow Hlt Hsend Hsel]; try lia.
  - apply select_TimerFired in Hsel as [-> _]. lia.
  - apply select_CtxDone in Hsel as (d & _ & -> & _). lia.
Qed.


(** The number of transport invocations is bounded by what the object
    holds as [MaxRetries] while the loop runs. *)
Lemma DeliveryOn_sends_bound a now acts fin :
  DeliveryOn w ctx e cfg a now acts fin ->
  forall N,
    (forall t, now <= t <= fin -> MaxRetries (Server (cfg t)) <= N) ->
    Z.of_nat (List.length (sends acts)) <= Z.max 0 (N - a).
Proof.
  induction 1 as [| | |a now took err woke rest fin Hnow Hlt Hsend Hsel Hrest IH
                  |a now took err woke Hnow Hlt Hsend Hsel];
    intros N HN; unfold sends in *; cbn [filter is_send List.length] in *.
  - lia.
  - specialize (HN now ltac:(lia)). lia.
  - specialize (HN now ltac:(lia)). lia.
  - pose proof (DeliveryOn_not_before _ _ _ _ Hrest) as Hfin.
    pose proof (select_TimerFired _ _ _ _ _ Hsel) as [Hwoke _].
    specialize (IH N ltac:(intros t Ht; apply HN; lia)).
    specialize (HN (now + Z.max 0 took) ltac:(lia)). lia.
  - pose proof (select_CtxDone _ _ _ _ _ Hsel) as (d & _ & Hwoke & _).
    specialize (HN now ltac:(lia)). lia.
Qed.

Lemma DeliveryOn_success_last a now acts fin :
  DeliveryOn w ctx e cfg a now acts fin ->
  forall pre x post,
    acts = pre ++ x :: post -> send_succeeded x = true ->
    post = [] /\ finish_of x = Some fin.
Proof.
  induction 1 as [| | |a now took err woke rest fin Hnow Hlt Hsend Hsel Hrest IH|];
    intros pre x post Hsplit Hok.
  - destruct pre; discriminate.
  - destruct pre as [|p0 [|p1 pre]]; inversion Hsplit; subst; auto.
  - destruct pre as [|p0 [|p1 pre]]; inversion Hsplit; subst; discriminate.
  - destruct pre as [|p0 [|p1 pre]]; inversion Hsplit; subst; try discriminate.
    eapply IH; eauto.
  - destruct pre as [|p0 [|p1 [|p2 pre]]]; inversion Hsplit; subst; discriminate.
Qed.

Lemma DeliveryOn_retry_needs_failure a now acts fin :
  DeliveryOn w ctx e cfg a now acts fin ->
  forall pre x post,
    sends acts = pre ++ x :: post -> post <> [] -> send_failed x = true.
Proof.
  unfold sends.
  induction 1 as [| | |a now took err woke rest fin Hnow Hlt Hsend Hsel Hrest IH|];
    cbn [filter is_send]; intros pre x post Hsplit Hpost.
  - destruct pre; discriminate.
  - destruct pre as [|p0 [|p1 pre]]; inversion Hsplit; subst; congruence.
  - destruct pre as [|p0 [|p1 pre]]; inversion Hsplit; subst; congruence.
  - destruct pre as [|p0 pre]; inversion Hsplit; subst; [reflexivity|].
    eapply IH; eauto.
  - destruct pre as [|p0 [|p1 pre]]; inversion Hsplit; subst; congruence.
Qed.




End SharedObject.

(** [processEmail] on the shared object: with fuel for the largest
    [MaxRetries] the object holds from [now] on it returns, and its actions
    are a [DeliveryOn] the object from iteration 0, for the message built
    with the sender the object held at [now]. *)
Lemma processEmail_DeliveryOn w ctx req (cfg : Shared) now fuel :
  (forall t, now <= t -> MaxRetries (Server (cfg t)) <= Z.of_nat fuel) ->
  exists r,
    processEmail w fuel ctx req cfg now = Some r /\
    DeliveryOn w ctx (message req (cfg now)) cfg 0 now (actions (events r)) (finished r).
Proof.
  intros Hfuel. unfold processEmail.
  destruct (attempts_DeliveryOn w ctx (message req (cfg now)) cfg fuel 0 now)
    as (r & Hr & Hd).
  { intros t Ht. specialize (Hfuel t Ht). lia. }
  rewrite Hr. eexists. split; [reflexivity|]. exact Hd.
Qed.

(** C1, as the code has it.  The loop of [processEmail] reads
    [cfg.Server.MaxRetries] from the shared object at every test, so the
    bound on a delivery is what the object holds while the delivery runs:
    it invokes the SMTP transport at most [N] times for every [N] that
    bounds the [MaxRetries] the object holds from the start of the delivery
    to its end, which is the [MaxRetries] it started with when no reload
    writes the object meanwhile.  Whatever is written, an invocation is
    followed by another one only if it returned an error, and after an
    invocation that succeeds the engine does nothing but log and returns at
    the instant the invocation returned. *)
Theorem processEmail_bounded_retries w ctx req (cfg : Shared) now fuel :
  (forall t, now <= t -> MaxRetries (Server (cfg t)) <= Z.of_nat fuel) ->
  exists r,
    processEmail w fuel ctx req cfg now = Some r /\
    (forall N,
        (forall t, now <= t <= finished r -> MaxRetries (Server (cfg t)) <= N) ->
        Z.of_nat (List.length (sends (events r))) <= Z.max 0 N) /\
    (forall pre x post,
        sends (events r) = pre ++ x :: post -> post <> [] ->
        send_failed x = true) /\
    (forall pre x post,
        actions (events r) = pre ++ x :: post -> send_succeeded x = true ->
        post = [] /\ finish_of x = Some (finished r)).
Proof.
  intros Hfuel.
  destruct (processEmail_DeliveryOn w ctx req cfg now fuel Hfuel) as (r & Hr & Hd).
  exists r. split; [exact Hr|]. repeat split.
  - intros N HN.
    pose proof (DeliveryOn_sends_bound _ _ _ _ _ _ _ _ Hd N HN) as Hb.
    rewrite sends_actions in Hb. lia.
  - intros pre x post Hsplit. rewrite <- sends_actions in Hsplit.
    eapply DeliveryOn_retry_needs_failure; eauto.
  - eapply DeliveryOn_success_last; eauto.
  - eapply DeliveryOn_success_last; eauto.
Qed.


(** C9.  Under a configuration with [MaxRetries >= 1], whatever the
    context, one that is done before the delivery begins included, the
    first thing [processEmail] does besides logging is a transport
    invocation, started at the instant of the call; and it receives from
    [ctx.Done()] only directly after a failed attempt, in the wait between
    two attempts. *)
Theorem processEmail_first_attempt_ignores_cancellation w ctx req c now fuel :
  1 <= MaxRetries (Server c) ->
  MaxRetries (Server c) <= Z.of_nat fuel ->
  exists r,
    processEmail w fuel ctx req (fixed c) now = Some r /\
    (exists fi res rest,
        actions (events r) = EvSend (session c (message req c)) now fi res :: rest) /\
    (forall pre t post,
        actions (events r) = pre ++ EvCtxDone t :: post ->
        exists pre' s st fi err, pre = pre' ++ [EvSend s st fi (Some err)]).
Proof.
  intros HN Hfuel.
  destruct (processEmail_Delivery w ctx req c now fuel Hfuel) as (r & Hr & Hd).
  exists r. split; [exact Hr|]. split.
  - inversion Hd; subst; try lia; eauto.
  - intros pre t post Hsplit.
    destruct (Delivery_cancel_is_final _ _ _ _ _ _ _ _ Hd _ _ _ Hsplit)
      as (_ & _ & pre' & s & st & fi & err & Hpre & _).
    eauto 6.
Qed.

(** What the two shared objects hold. *)
Lemma raised_reads t : raised t = if 5 <=? t then other else single.
Proof. vm_compute. reflexivity. Qed.


Lemma raised_bound t : MaxRetries (Server (raised t)) <= 3.
Proof. rewrite raised_reads. destruct (5 <=? t); evaluate. Qed.


(** The delivery that begins at 0 on [raised]: the object holds
    [MaxRetries = 1] until the reload at 5 and 3 from then on. *)
Lemma processEmail_bounded_retries_witness :
  (forall t, 0 <= t -> MaxRetries (Server (raised t)) <= Z.of_nat 3) /\
  exists r,
    processEmail always_refuses 3 Background hello raised 0 = Some r /\
    Z.of_nat (List.length (sends (events r))) <= 3.
Proof.
  split; [intros t _; apply raised_bound|].
  destruct (processEmail_bounded_retries always_refuses Background hello raised 0 3%nat)
    as (r & Hr & Hlen & _); [intros t _; apply raised_bound|].
  exists r. split; [exact Hr|].
  apply (Hlen 3). intros t _. apply raised_bound.
Defined.


(** The context is done at instant -5, before the delivery begins at 0. *)
Lemma processEmail_first_attempt_ignores_cancellation_witness :
  exists r,
    processEmail refuses_twice 3 {| done_at := Some (-5) |} hello
      (fixed (namedDefault appName)) 0 = Some r /\
    exists fi res rest,
      actions (events r)
      = EvSend (session (namedDefault appName) (message hello (namedDefault appName)))
          0 fi res :: rest.
Proof.
  destruct (processEmail_first_attempt_ignores_cancellation refuses_twice
              {| done_at := Some (-5) |} hello (namedDefault appName) 0 3%nat)
    as (r & Hr & Hfirst & _); [evaluate | evaluate |].
  exists r. split; [exact Hr | exact Hfirst].
Defined.

(** ** Validation, startup and reload *)

(** C1, as the specification states it, does not hold of the code.  The
    delivery begins at 0 on a configuration with [MaxRetries = 1]; a SIGHUP
    at 5 reloads [other], with [MaxRetries = 3], into the shared object;
    the first attempt fails at 7, where the loop reads the object again and
    goes on: the delivery invokes the transport three times. *)
Lemma reload_raises_bound_of_delivery_in_flight :
  exists r,
    processEmail always_refuses 3 Background hello raised 0 = Some r /\
    MaxRetries (Server (raised 0)) = 1 /\
    Z.of_nat (List.length (sends (events r))) = 3.
Proof.
  eexists. split; [vm_compute; reflexivity|]. split; vm_compute; reflexivity.
Qed.


Lemma validateConfig_accepts (c : Config) :
  validateConfig c = None ->
  Host (SMTP c) <> "" /\ Port (SMTP c) <> "" /\ FromAddr (SMTP c) <> "" /\
  AuthUser (SMTP c) <> "" /\ AuthPass (SMTP c) <> "" /\
  InternalAddr (Server c) <> "" /\
  0 < Timeout (Server c) /\ 0 < RetryDelay (Server c) /\ 0 < MaxRetries (Server c).
Proof.
  unfold validateConfig.
  destruct (is_empty (Host (SMTP c))) eqn:H1; [discriminate|].
  destruct (is_empty (Port (SMTP c))) eqn:H2; [discriminate|].
  destruct (is_empty (FromAddr (SMTP c))) eqn:H3; [discriminate|].
  destruct (is_empty (AuthUser (SMTP c))) eqn:H4; [discriminate|].
  destruct (is_empty (AuthPass (SMTP c))) eqn:H5; [discriminate|].
  destruct (is_empty (InternalAddr (Server c))) eqn:H6; [discriminate|].
  destruct (Z.leb_spec (Timeout (Server c)) 0); [discriminate|].
  destruct (Z.leb_spec (RetryDelay (Server c)) 0); [discriminate|].
  destruct (Z.leb_spec (MaxRetries (Server c)) 0); [discriminate|].
  intros _. repeat split; auto using is_empty_false.
Qed.

Lemma Load_validates fs tm name c configExists :
  Load fs tm name = (Some c, configExists, None) -> validateConfig c = None.
Proof.
  unfold Load.
  destruct (os_MkdirAll fs (configDir name)); [discriminate|].
  destruct (os_Stat fs (configPath name)).
  - destruct (validateConfig (namedDefault name)) eqn:Hv; intros [= <- _]; exact Hv.
  - destruct (os_ReadFile fs (configPath name)) as [data|]; [|discriminate].
    destruct (Unmarshal tm data (namedDefault name)) as [c'|]; [|discriminate].
    destruct (validateConfig c') eqn:Hv; intros [= <- _]; exact Hv.
Qed.

Lemma Load_nil_only_with_error fs tm name configExists err :
  Load fs tm name = (None, configExists, err) -> err <> None.
Proof.
  unfold Load.
  destruct (os_MkdirAll fs (configDir name)); [intros [= _ <-]; discriminate|].
  destruct (os_Stat fs (configPath name)).
  - destruct (validateConfig (namedDefault name)); intros [= _ <-]; discriminate.
  - destruct (os_ReadFile fs (configPath name)) as [data|];
      [|intros [= _ <-]; discriminate].
    destruct (Unmarshal tm data (namedDefault name)) as [c'|];
      [|intros [= _ <-]; discriminate].
    destruct (validateConfig c'); intros [= _ <-]; discriminate.
Qed.

(** What [reloadConfig] returns, by cases on what [Load] and [logger.Init]
    return. *)
Lemma reloadConfig_cases sys cfg :
  match reloadConfig sys cfg with
  | (Some _, cfg', evs) => cfg' = cfg /\ evs = []
  | (None, cfg', _) =>
    Load (fs sys) (toml sys) appName = (Some cfg', true, None) /\
    logger_Init sys (Logging cfg') = None
  end.
Proof.
  unfold reloadConfig.
  destruct (Load (fs sys) (toml sys) appName) as [[newConfig configExists] [err|]];
    [split; reflexivity|].
  destruct configExists; cbn [negb]; [|split; reflexivity].
  destruct newConfig as [newConfig|]; [|split; reflexivity].
  destruct (logger_Init sys (Logging newConfig)) eqn:Hl; split; auto.
Qed.

Lemma reloadConfig_validates sys cfg cfg' evs :
  reloadConfig sys cfg = (None, cfg', evs) -> validateConfig cfg' = None.
Proof.
  intros H. pose proof (reloadConfig_cases sys cfg) as Hc. rewrite H in Hc.
  eapply Load_validates, Hc.
Qed.

Lemma main_serves_validated sys cfg tr :
  main sys = (Serving cfg, tr) -> validateConfig cfg = None.
Proof.
  unfold main.
  destruct (Load (fs sys) (toml sys) appName) as [[[c|] configExists] [err|]] eqn:HL;
    try discriminate.
  destruct (logger_Init sys (Logging c)); [discriminate|].
  destruct (net_Listen sys (InternalAddr (Server c))); [discriminate|].
  intros [= <- _]. eapply Load_validates, HL.
Qed.

Lemma signalLoop_writes_validated sigs :
  forall cfg,
    Forall (fun w => validateConfig (snd w) = None) (writes (signalLoop sigs cfg)).
Proof.
  induction sigs as [|[[now sig] sys] sigs IH]; intros cfg; cbn [signalLoop].
  - constructor.
  - destruct sig; try constructor.
    destruct (reloadConfig sys cfg) as [[[err|] cfg'] evs] eqn:Hr; cbn [writes].
    + apply IH.
    + constructor; [eapply reloadConfig_validates, Hr | apply IH].
Qed.

Lemma shared_validated ws :
  forall initial now,
    validateConfig initial = None ->
    Forall (fun w => validateConfig (snd w) = None) ws ->
    validateConfig (shared initial ws now) = None.
Proof.
  unfold shared.
  induction ws as [|w ws IH]; intros initial now Hi Hws; cbn [fold_left]; [exact Hi|].
  inversion Hws; subst. apply IH; [|assumption].
  destruct (fst w <=? now); assumption.
Qed.

(** C7.  [validateConfig] returns nil only for a configuration whose SMTP
    host, port, from-address, user and password and whose internal listen
    address are not empty and whose timeout, retry delay and retry count
    are positive; it rejects every configuration with [MaxRetries <= 0];
    [Load] returns only configurations it accepts, so the configuration
    [main] serves on and the one a reload assigns are accepted ones, and
    the shared object holds a positive [MaxRetries] at every instant. *)
Theorem validateConfig_guards_the_server :
  (forall c,
      validateConfig c = None ->
      Host (SMTP c) <> "" /\ Port (SMTP c) <> "" /\ FromAddr (SMTP c) <> "" /\
      AuthUser (SMTP c) <> "" /\ AuthPass (SMTP c) <> "" /\
      InternalAddr (Server c) <> "" /\
      0 < Timeout (Server c) /\ 0 < RetryDelay (Server c) /\
      0 < MaxRetries (Server c)) /\
  (forall c, MaxRetries (Server c) <= 0 -> validateConfig c <> None) /\
  (forall fs tm name c configExists,
      Load fs tm name = (Some c, configExists, None) -> validateConfig c = None) /\
  (forall sys cfg tr, main sys = (Serving cfg, tr) -> validateConfig cfg = None) /\
  (forall sys cfg cfg' evs,
      reloadConfig sys cfg = (None, cfg', evs) -> validateConfig cfg' = None) /\
  (forall sys cfg tr sigs now,
      main sys = (Serving cfg, tr) ->
      0 < MaxRetries (Server (shared cfg (writes (handleSignals sigs cfg)) now))).
Proof.
  split; [exact validateConfig_accepts|].
  split.
  { intros c Hle Hv. apply validateConfig_accepts in Hv. lia. }
  split; [exact Load_validates|].
  split; [exact main_serves_validated|].
  split; [exact reloadConfig_validates|].
  intros sys cfg tr sigs now Hmain.
  apply validateConfig_accepts, shared_validated.
  - eapply main_serves_validated, Hmain.
  - apply signalLoop_writes_validated.
Qed.

Lemma validateConfig_guards_the_server_witness :
  validateConfig (namedDefault appName) = None /\
  0 < MaxRetries (Server (namedDefault appName)).
Proof.
  split; [reflexivity|].
  apply (proj1 validateConfig_guards_the_server (namedDefault appName)).
  reflexivity.
Defined.

(** C3.  A reload that returns an error leaves the content of the shared
    configuration object as it was, and the signal handler goes on with the
    next signals on that content, without a write and without cancelling.
    A reload that returns nil has assigned the configuration that [Load]
    returned for an existing file, which [validateConfig] accepts and for
    whose logging section [logger.Init] succeeded.  The reload returns nil
    exactly when [Load] succeeds on an existing file and [logger.Init]
    succeeds. *)
Theorem reloadConfig_failure_keeps_configuration sys cfg :
  match reloadConfig sys cfg with
  | (Some _, cfg', _) =>
    cfg' = cfg /\
    forall now sigs,
      content (signalLoop ((now, SIGHUP, sys) :: sigs) cfg)
        = content (signalLoop sigs cfg) /\
      writes (signalLoop ((now, SIGHUP, sys) :: sigs) cfg)
        = writes (signalLoop sigs cfg) /\
      cancel_called (signalLoop ((now, SIGHUP, sys) :: sigs) cfg)
        = cancel_called (signalLoop sigs cfg) /\
      In (EvLog LevelError "Failed to reload configuration")
         (logged (signalLoop ((now, SIGHUP, sys) :: sigs) cfg))
  | (None, cfg', _) =>
    Load (fs sys) (toml sys) appName = (Some cfg', true, None) /\
    validateConfig cfg' = None /\
    logger_Init sys (Logging cfg') = None
  end /\
  (fst (fst (reloadConfig sys cfg)) = None <->
   exists c,
     Load (fs sys) (toml sys) appName = (Some c, true, None) /\
     logger_Init sys (Logging c) = None).
Proof.
  split.
  - pose proof (reloadConfig_cases sys cfg) as Hc.
    destruct (reloadConfig sys cfg) as [[[err|] cfg'] evs] eqn:Hr.
    + destruct Hc as [-> ->]. split; [reflexivity|].
      intros now sigs. cbn [signalLoop]. rewrite Hr.
      cbn. auto.
    + destruct Hc as [HL Hlog]. repeat split; auto.
      eapply Load_validates, HL.
  - split.
    + intros Hnil. pose proof (reloadConfig_cases sys cfg) as Hc.
      destruct (reloadConfig sys cfg) as [[[err|] cfg'] evs]; [discriminate|].
      exists cfg'. exact Hc.
    + intros (c & HL & Hlog). unfold reloadConfig. rewrite HL. cbn [negb].
      rewrite Hlog. reflexivity.
Qed.

(** C10.  When the configuration file does not exist, [reloadConfig]
    returns an error and leaves the content of the shared object as it
    was, whatever it was.  When the directory can be made, the error is
    that the file was not found, although [Load] returned the defaults
    without an error, and [main], in the same situation, serves on these
    defaults once the logger and the listener start. *)
Theorem reloadConfig_missing_file_keeps_configuration sys cfg err :
  os_Stat (fs sys) (configPath appName) = Some err ->
  (exists e, reloadConfig sys cfg = (Some e, cfg, [])) /\
  (os_MkdirAll (fs sys) (configDir appName) = None ->
   reloadConfig sys cfg = (Some "configuration file not found", cfg, []) /\
   Load (fs sys) (toml sys) appName = (Some (namedDefault appName), false, None) /\
   (logger_Init sys (Logging (namedDefault appName)) = None ->
    net_Listen sys (InternalAddr (Server (namedDefault appName))) = None ->
    fst (main sys) = Serving (namedDefault appName))).
Proof.
  intros Hstat.
  assert (HL : os_MkdirAll (fs sys) (configDir appName) = None ->
               Load (fs sys) (toml sys) appName
               = (Some (namedDefault appName), false, None)).
  { intros Hmk. unfold Load. rewrite Hmk, Hstat. reflexivity. }
  split.
  - unfold reloadConfig.
    destruct (os_MkdirAll (fs sys) (configDir appName)) as [e|] eqn:Hmk.
    + unfold Load. rewrite Hmk. eauto.
    + rewrite (HL eq_refl). cbn [negb]. eauto.
  - intros Hmk. specialize (HL Hmk). split; [|split].
    + unfold reloadConfig. rewrite HL. reflexivity.
    + exact HL.
    + intros Hlog Hlisten. unfold main. rewrite HL, Hlog, Hlisten. reflexivity.
Qed.

Lemma reloadConfig_missing_file_keeps_configuration_witness :
  os_Stat (fs no_file) (configPath appName) = Some "no such file or directory" /\
  reloadConfig no_file tuned = (Some "configuration file not found", tuned, []) /\
  fst (main no_file) = Serving (namedDefault appName).
Proof.
  split; [reflexivity|].
  destruct (reloadConfig_missing_file_keeps_configuration no_file tuned
              "no such file or directory" eq_refl) as [_ H].
  destruct (H eq_refl) as (Hreload & _ & Hmain).
  split; [exact Hreload | exact (Hmain eq_refl eq_refl)].
Defined.

(** C4.  When the configuration loads and the logger starts but the
    listening socket cannot be bound, [main] logs the error and returns:
    the deferred calls run and the process exits with status 0.  The two
    other startup failures leave through [os.Exit(1)]. *)
Theorem main_bind_failure_exits_zero sys :
  (forall cfg configExists err,
      Load (fs sys) (toml sys) appName = (Some cfg, configExists, None) ->
      logger_Init sys (Logging cfg) = None ->
      net_Listen sys (InternalAddr (Server cfg)) = Some err ->
      fst (main sys) = Returned /\ exit_status (fst (main sys)) = Some 0) /\
  (forall cfg configExists err,
      Load (fs sys) (toml sys) appName = (cfg, configExists, Some err) ->
      exit_status (fst (main sys)) = Some 1) /\
  (forall cfg configExists err,
      Load (fs sys) (toml sys) appName = (Some cfg, configExists, None) ->
      logger_Init sys (Logging cfg) = Some err ->
      exit_status (fst (main sys)) = Some 1).
Proof.
  unfold main. split; [|split].
  - intros cfg configExists err HL Hlog Hlisten.
    rewrite HL, Hlog, Hlisten. split; reflexivity.
  - intros cfg configExists err HL. rewrite HL. destruct cfg; reflexivity.
  - intros cfg configExists err HL Hlog. rewrite HL, Hlog. reflexivity.
Qed.

Lemma main_bind_failure_exits_zero_witness :
  net_Listen address_in_use (InternalAddr (Server (namedDefault appName)))
    = Some "bind: address already in use" /\
  exit_status (fst (main address_in_use)) = Some 0.
Proof.
  split; [reflexivity|].
  exact (proj2 (proj1 (main_bind_failure_exits_zero address_in_use)
                  (namedDefault appName) false "bind: address already in use"
                  eq_refl eq_refl eq_refl)).
Defined.

(** ** The connection handler *)

Lemma on_conn_none_app (tr1 tr2 : list Event) :
  filter on_conn tr1 = [] -> filter on_conn tr2 = [] ->
  filter on_conn (tr1 ++ tr2) = [].
Proof. intros H1 H2. rewrite filter_app, H1, H2. reflexivity. Qed.

Lemma sendEmail_leaves_conn w attempt e cfg now :
  filter on_conn (events (snd (sendEmail w attempt e cfg now))) = [].
Proof.
  unfold sendEmail.
  destruct (SendWithStartTLS w attempt (session (cfg now) e)) as [took [err|]];
    reflexivity.
Qed.

(** The delivery engine does not touch the connection, whatever happens to
    the shared configuration. *)
Lemma attempts_leaves_conn w ctx e cfg fuel :
  forall attempt now r,
    attempts w fuel ctx e cfg attempt now = Some r ->
    filter on_conn (events r) = [].
Proof.
  induction fuel as [|fuel IH]; intros attempt now r; cbn [attempts].
  - destruct (attempt <? MaxRetries (Server (cfg now))); [discriminate|].
    intros [= <-]. reflexivity.
  - destruct (attempt <? MaxRetries (Server (cfg now)));
      [|intros [= <-]; reflexivity].
    pose proof (sendEmail_leaves_conn w attempt e cfg now) as Hsent.
    destruct (sendEmail w attempt e cfg now) as [[err|] sent]; cbn [snd] in Hsent.
    + destruct (attempt <? MaxRetries (Server (cfg (finished sent))) - 1).
      * destruct (select_After_or_Done ctx _ _ _) as [woke|woke].
        -- destruct (attempts w fuel ctx e cfg (attempt + 1) woke) as [rest|] eqn:Hrest;
             [|discriminate].
           intros [= <-]. cbn [events].
           change (EvLog LevelDebug "Attempting to send email" :: events sent)
             with ([EvLog LevelDebug "Attempting to send email"] ++ events sent).
           repeat apply on_conn_none_app; auto.
           cbn. eapply IH, Hrest.
        -- intros [= <-]. cbn [events].
           change (EvLog LevelDebug "Attempting to send email" :: events sent)
             with ([EvLog LevelDebug "Attempting to send email"] ++ events sent).
           repeat apply on_conn_none_app; auto.
      * destruct (attempts w fuel ctx e cfg (attempt + 1) (finished sent))
          as [rest|] eqn:Hrest; [|discriminate].
        intros [= <-]. cbn [events].
        change (EvLog LevelDebug "Attempting to send email" :: events sent)
          with ([EvLog LevelDebug "Attempting to send email"] ++ events sent).
        repeat apply on_conn_none_app; auto.
        eapply IH, Hrest.
    + intros [= <-]. cbn [events].
      change (EvLog LevelDebug "Attempting to send email" :: events sent)
        with ([EvLog LevelDebug "Attempting to send email"] ++ events sent).
      repeat apply on_conn_none_app; auto.
Qed.

Lemma processEmail_leaves_conn w fuel ctx req cfg now r :
  processEmail w fuel ctx req cfg now = Some r ->
  filter on_conn (events r) = [].
Proof.
  unfold processEmail.
  destruct (attempts w fuel ctx (message req (cfg now)) cfg 0 now) as [r'|] eqn:Hr;
    [|discriminate].
  intros [= <-]. cbn. eapply attempts_leaves_conn, Hr.
Qed.

Lemma wire_on_conn (tr : list Event) : filter on_conn tr = [] -> wire tr = [].
Proof.
  induction tr as [|x tr IH]; [reflexivity|].
  destruct x; cbn; try discriminate; exact IH.
Qed.

Lemma wire_app (tr1 tr2 : list Event) : wire (tr1 ++ tr2) = wire tr1 ++ wire tr2.
Proof.
  induction tr1 as [|x tr1 IH]; [reflexivity|].
  destruct x; cbn; rewrite ?IH; reflexivity.
Qed.

(** C6.  When the decoder returns an error, [handleConnection] returns
    having logged the decode error and closed the connection, with no byte
    written to it and no transport invocation.  On every path on which it
    returns, closing the connection is the last thing it does and the only
    thing it does to the connection.  It does return under a configuration
    nobody writes. *)
Theorem handleConnection_closes_and_stays_silent w fuel ctx conn :
  (forall cfg now err,
      json_Decode w (stream conn) = Err err ->
      exists r tr,
        handleConnection w fuel ctx conn cfg now = Some r /\
        events r = tr ++ [EvClose] /\
        In (EvLog LevelError "Failed to decode email request") tr /\
        filter on_conn tr = [] /\
        wire (events r) = [] /\
        sends (events r) = []) /\
  (forall cfg now r,
      handleConnection w fuel ctx conn cfg now = Some r ->
      exists tr,
        events r = tr ++ [EvClose] /\
        filter on_conn tr = [] /\
        wire (events r) = []) /\
  (forall c now,
      MaxRetries (Server c) <= Z.of_nat fuel ->
      exists r, handleConnection w fuel ctx conn (fixed c) now = Some r).
Proof.
  split; [|split].
  - intros cfg now err Hdec. unfold handleConnection. rewrite Hdec.
    exists {| events := [EvLog LevelInfo "New connection received";
                         EvLog LevelDebug "Decoding email request";
                         EvLog LevelError "Failed to decode email request";
                         EvClose];
              finished := now + Z.max 0 (read_time conn) |},
           [EvLog LevelInfo "New connection received";
            EvLog LevelDebug "Decoding email request";
            EvLog LevelError "Failed to decode email request"].
    repeat split. cbn. auto.
  - intros cfg now r. unfold handleConnection.
    destruct (json_Decode w (stream conn)) as [req|err].
    + destruct (processEmail w fuel _ req cfg _) as [r'|] eqn:Hr; [|discriminate].
      intros [= <-]. cbn [events].
      apply processEmail_leaves_conn in Hr.
      exists ([EvLog LevelInfo "New connection received";
               EvLog LevelDebug "Decoding email request";
               EvLog LevelDebug "Successfully decoded email request"] ++ events r').
      split; [reflexivity|]. split; [exact Hr|].
      cbn. rewrite wire_app, (wire_on_conn _ Hr). reflexivity.
    + intros [= <-].
      exists [EvLog LevelInfo "New connection received";
              EvLog LevelDebug "Decoding email request";
              EvLog LevelError "Failed to decode email request"].
      repeat split.
  - intros c now Hfuel. unfold handleConnection.
    destruct (json_Decode w (stream conn)) as [req|err]; [|eauto].
    destruct (processEmail_Delivery w
                (WithTimeout ctx (Timeout (Server (fixed c (now + Z.max 0 (read_time conn)))))
                   (now + Z.max 0 (read_time conn)))
                req c (now + Z.max 0 (read_time conn)) fuel Hfuel) as (r & Hr & _).
    rewrite Hr. eauto.
Qed.

Lemma handleConnection_closes_and_stays_silent_witness :
  json_Decode refuses_twice (stream malformed) = Err "unexpected end of JSON input" /\
  exists r tr,
    handleConnection refuses_twice 3 Background malformed
      (fixed (namedDefault appName)) 0 = Some r /\
    events r = tr ++ [EvClose] /\
    In (EvLog LevelError "Failed to decode email request") tr /\
    filter on_conn tr = [] /\
    wire (events r) = [] /\
    sends (events r) = [].
Proof.
  split; [reflexivity|].
  exact (proj1 (handleConnection_closes_and_stays_silent refuses_twice 3 Background
                  malformed)
           (fixed (namedDefault appName)) 0 "unexpected end of JSON input" eq_refl).
Defined.

(** ** The shared configuration object and the deliveries in flight *)

Lemma select_not_before ctx d now pick :
  match select_After_or_Done ctx d now pick with
  | TimerFired woke | CtxDone woke => now <= woke
  end.
Proof.
  destruct (select_After_or_Done ctx d now pick) as [woke|woke] eqn:Hsel.
  - apply select_TimerFired in Hsel as [-> _]. lia.
  - apply select_CtxDone in Hsel as (c & _ & -> & _). lia.
Qed.

Lemma sendEmail_not_before w attempt e cfg now :
  now <= finished (snd (sendEmail w attempt e cfg now)).
Proof.
  unfold sendEmail.
  destruct (SendWithStartTLS w attempt (session (cfg now) e)) as [took [err|]];
    cbn; lia.
Qed.

Lemma sendEmail_agree w attempt e cfg1 cfg2 now :
  cfg2 now = cfg1 now ->
  sendEmail w attempt e cfg2 now = sendEmail w attempt e cfg1 now.
Proof. intros H. unfold sendEmail. rewrite H. reflexivity. Qed.

(** The loop returns no earlier than it is entered. *)
Lemma attempts_not_before w ctx e cfg fuel :
  forall attempt now r,
    attempts w fuel ctx e cfg attempt now = Some r -> now <= finished r.
Proof.
  induction fuel as [|fuel IH]; intros attempt now r; cbn [attempts].
  - destruct (attempt <? MaxRetries (Server (cfg now))); [discriminate|].
    intros [= <-]. cbn. lia.
  - destruct (attempt <? MaxRetries (Server (cfg now)));
      [|intros [= <-]; cbn; lia].
    pose proof (sendEmail_not_before w attempt e cfg now) as Hsent.
    destruct (sendEmail w attempt e cfg now) as [[err|] sent]; cbn [snd] in Hsent.
    + destruct (attempt <? MaxRetries (Server (cfg (finished sent))) - 1).
      * pose proof (select_not_before ctx
                      (RetryDelay (Server (cfg (finished sent)))) (finished sent)
                      (pick_timer w attempt)) as Hsel.
        destruct (select_After_or_Done ctx _ _ _) as [woke|woke].
        -- destruct (attempts w fuel ctx e cfg (attempt + 1) woke) as [rest|] eqn:Hrest;
             [|discriminate].
           intros [= <-]. cbn. apply IH in Hrest. lia.
        -- intros [= <-]. cbn. lia.
      * destruct (attempts w fuel ctx e cfg (attempt + 1) (finished sent))
          as [rest|] eqn:Hrest; [|discriminate].
        intros [= <-]. cbn. apply IH in Hrest. lia.
    + intros [= <-]. cbn. lia.
Qed.

(** The loop reads the shared object only between the instant it is
    entered and the instant it returns: two objects with the same content
    over that interval give the same run. *)
Lemma attempts_agree w ctx e cfg1 cfg2 fuel :
  forall attempt now r,
    attempts w fuel ctx e cfg1 attempt now = Some r ->
    (forall t, now <= t <= finished r -> cfg2 t = cfg1 t) ->
    attempts w fuel ctx e cfg2 attempt now = Some r.
Proof.
  induction fuel as [|fuel IH]; intros attempt now r Hrun Hsame;
    pose proof (attempts_not_before _ _ _ _ _ _ _ _ Hrun) as Hfin;
    cbn [attempts] in *; rewrite (Hsame now ltac:(lia)).
  - exact Hrun.
  - destruct (attempt <? MaxRetries (Server (cfg1 now))); [|exact Hrun].
    rewrite (sendEmail_agree w attempt e cfg1 cfg2 now (Hsame now ltac:(lia))).
    pose proof (sendEmail_not_before w attempt e cfg1 now) as Hsent.
    destruct (sendEmail w attempt e cfg1 now) as [[err|] sent]; cbn [snd] in Hsent;
      [|exact Hrun].
    assert (Hin : finished sent <= finished r).
    { destruct (attempt <? MaxRetries (Server (cfg1 (finished sent))) - 1).
      - pose proof (select_not_before ctx
                      (RetryDelay (Server (cfg1 (finished sent)))) (finished sent)
                      (pick_timer w attempt)) as Hsel.
        destruct (select_After_or_Done ctx _ _ _) as [woke|woke].
        + destruct (attempts w fuel ctx e cfg1 (attempt + 1) woke) as [rest|] eqn:Hrest;
            [|discriminate].
          injection Hrun as <-. cbn. apply attempts_not_before in Hrest. lia.
        + injection Hrun as <-. cbn. lia.
      - destruct (attempts w fuel ctx e cfg1 (attempt + 1) (finished sent))
          as [rest|] eqn:Hrest; [|discriminate].
        injection Hrun as <-. cbn. apply attempts_not_before in Hrest. lia. }
    rewrite (Hsame (finished sent) ltac:(lia)).
    destruct (attempt <? MaxRetries (Server (cfg1 (finished sent))) - 1).
    + pose proof (select_not_before ctx
                    (RetryDelay (Server (cfg1 (finished sent)))) (finished sent)
                    (pick_timer w attempt)) as Hsel.
      destruct (select_After_or_Done ctx _ _ _) as [woke|woke]; [|exact Hrun].
      destruct (attempts w fuel ctx e cfg1 (attempt + 1) woke) as [rest|] eqn:Hrest;
        [|discriminate].
      injection Hrun as <-. cbn [finished] in *.
      rewrite (IH _ _ _ Hrest); [reflexivity|].
      intros t Ht. apply Hsame. lia.
    + destruct (attempts w fuel ctx e cfg1 (attempt + 1) (finished sent))
        as [rest|] eqn:Hrest; [|discriminate].
      injection Hrun as <-. cbn [finished] in *.
      rewrite (IH _ _ _ Hrest); [reflexivity|].
      intros t Ht. apply Hsame. lia.
Qed.

(** The content of the shared object does not change over an interval in
    which it is not written. *)
Lemma shared_unwritten ws :
  forall initial now fin t,
    Forall (fun wr => fst wr <= now \/ fin < fst wr) ws ->
    now <= t <= fin ->
    shared initial ws t = shared initial ws now.
Proof.
  unfold shared.
  induction ws as [|wr ws IH]; intros initial now fin t Hws Ht; cbn [fold_left];
    [reflexivity|].
  inversion Hws as [|? ? Hwr Hrest]; subst.
  assert (Hsame : (fst wr <=? t) = (fst wr <=? now)).
  { destruct (Z.leb_spec (fst wr) t), (Z.leb_spec (fst wr) now); auto; lia. }
  rewrite Hsame. eapply IH; eauto.
Qed.

Lemma attempts_fixed_observes w ctx e c fuel :
  forall attempt now r,
    attempts w fuel ctx e (fixed c) attempt now = Some r ->
    Forall (fun ev => match ev with
                      | EvSend s _ _ _ => s = session c e
                      | _ => True
                      end) (events r).
Proof.
  induction fuel as [|fuel IH]; intros attempt now r; cbn [attempts]; unfold fixed at 1.
  - destruct (attempt <? MaxRetries (Server c)); [discriminate|].
    intros [= <-]. constructor.
  - destruct (attempt <? MaxRetries (Server c)); [|intros [= <-]; constructor].
    unfold sendEmail, fixed.
    destruct (SendWithStartTLS w attempt (session c e)) as [took [err|]];
      cbn [finished events].
    + destruct (attempt <? MaxRetries (Server c) - 1).
      * destruct (select_After_or_Done ctx _ _ _) as [woke|woke].
        -- destruct (attempts w fuel ctx e (fun _ => c) (attempt + 1) woke)
             as [rest|] eqn:Hrest; [|discriminate].
           intros [= <-]. cbn. repeat constructor. eapply IH, Hrest.
        -- intros [= <-]. cbn. repeat constructor.
      * destruct (attempts w fuel ctx e (fun _ => c) (attempt + 1) _)
          as [rest|] eqn:Hrest; [|discriminate].
        intros [= <-]. cbn. repeat constructor. eapply IH, Hrest.
    + intros [= <-]. cbn. repeat constructor.
Qed.

Lemma processEmail_unwritten w fuel ctx req cfg now r :
  processEmail w fuel ctx req (fixed (cfg now)) now = Some r ->
  (forall t, now <= t <= finished r -> cfg t = cfg now) ->
  processEmail w fuel ctx req cfg now = Some r /\
  Forall (observes (cfg now) req) (events r).
Proof.
  unfold processEmail, fixed at 1. intros Hrun Hsame.
  destruct (attempts w fuel ctx (message req (cfg now)) (fixed (cfg now)) 0 now)
    as [r'|] eqn:Hr; [|discriminate].
  injection Hrun as <-. cbn [finished] in Hsame. split.
  - rewrite (attempts_agree _ _ _ _ cfg _ _ _ _ Hr); [reflexivity|].
    intros t Ht. symmetry. rewrite (Hsame t Ht). reflexivity.
  - cbn [events]. constructor; [exact I|].
    exact (attempts_fixed_observes _ _ _ _ _ _ _ _ Hr).
Qed.

(** C5, as the code has it.  The signal handler writes the configuration a
    successful reload loaded into the object that the deliveries read, and
    a delivery reads that object at each use.  A delivery during which the
    object is not written (every write of the handler comes no later than
    the start of the delivery or after its end) runs as it would on the
    content the object had when it started, and opens every session with
    the settings of that one configuration. *)
Theorem processEmail_one_configuration_unless_reloaded w fuel ctx req initial sigs now r :
  let ws := writes (handleSignals sigs initial) in
  processEmail w fuel ctx req (fixed (shared initial ws now)) now = Some r ->
  Forall (fun wr => fst wr <= now \/ finished r < fst wr) ws ->
  processEmail w fuel ctx req (shared initial ws) now = Some r /\
  Forall (observes (shared initial ws now) req) (events r).
Proof.
  intros ws Hrun Hws.
  apply (processEmail_unwritten w fuel ctx req (shared initial ws) now r Hrun).
  intros t Ht. eapply shared_unwritten; eauto.
Qed.

(** A reload 30 seconds after the delivery began, when it is over. *)
Lemma processEmail_one_configuration_unless_reloaded_witness :
  exists r,
    processEmail refuses_twice 3 Background hello
      (shared (namedDefault appName)
         (writes (handleSignals [(30 * Second, SIGHUP, file_rewritten)]
                    (namedDefault appName))))
      0 = Some r /\
    Forall (observes (namedDefault appName) hello) (events r).
Proof.
  eexists.
  apply (processEmail_one_configuration_unless_reloaded refuses_twice 3 Background hello
           (namedDefault appName) [(30 * Second, SIGHUP, file_rewritten)] 0).
  - vm_compute. reflexivity.
  - vm_compute. constructor; [right; reflexivity | constructor].
Defined.

(** C5, as the specification states it, does not hold of the code.  The
    delivery begins at 0 on the defaults; the first attempt fails at 7; a SIGHUP at 5 reloads [other]
    into the shared object; the second attempt, after the wait, opens its
    session with the server and the credentials of [other] for the message
    built with the sender of the defaults.  No single configuration
    accounts for the two sessions. *)
Lemma reload_rewrites_configuration_of_delivery_in_flight :
  exists r,
    processEmail refuses_twice 3 Background hello
      (shared (namedDefault appName)
         (writes (handleSignals [(5, SIGHUP, file_rewritten)] (namedDefault appName))))
      0 = Some r /\
    ~ exists c, Forall (observes c hello) (events r).
Proof.
  eexists. split; [vm_compute; reflexivity|].
  intros [c Hc]. cbn [events] in Hc.
  repeat match goal with
         | H : Forall _ (_ :: _) |- _ => inversion H; clear H; subst
         end.
  unfold observes, session in *. congruence.
Qed.

(** ** The producers *)

Lemma Marshal_ends_with_brace (req : EmailRequest) :
  exists body, json.Marshal req = body ++ [x7d].
Proof.
  unfold json.Marshal. rewrite !app_assoc. eexists. reflexivity.
Qed.

Lemma Marshal_last (req : EmailRequest) : last (json.Marshal req) x00 = x7d.
Proof.
  destruct (Marshal_ends_with_brace req) as [body ->]. apply last_last.
Qed.

(** C8.  When [sendToMHRS] of mhrc returns nil, it has made one Write on
    its connection, of the JSON encoding of the request followed by a
    newline.  When [sendToMHRS] of submitf returns nil, it has made one
    Write, of the JSON encoding of the request alone: the last byte on the
    connection is the closing brace of the object and no newline follows
    it. *)
Theorem sendToMHRS_bytes_on_the_connection net cfg :
  (forall req,
      fst (mhrc.sendToMHRS net req cfg) = None ->
      wire (snd (mhrc.sendToMHRS net req cfg)) = [json.Marshal req ++ [x0a]]) /\
  (forall form,
      fst (submitf.sendToMHRS net form cfg) = None ->
      wire (snd (submitf.sendToMHRS net form cfg))
        = [json.Marshal (submitf.request form cfg)] /\
      last (json.Marshal (submitf.request form cfg)) x00 = x7d /\
      last (json.Marshal (submitf.request form cfg)) x00 <> x0a).
Proof.
  split.
  - intros req. unfold mhrc.sendToMHRS, conn_Write.
    destruct (Dial net (InternalAddr (Server cfg))); [discriminate|].
    destruct (SetWriteDeadline net); [discriminate|].
    destruct (Write net (json.Marshal req ++ [x0a])) as [[n err]|]; [discriminate|].
    reflexivity.
  - intros form. unfold submitf.sendToMHRS, conn_Write.
    destruct (Dial net (InternalAddr (Server cfg))); [discriminate|].
    destruct (SetWriteDeadline net); [discriminate|].
    destruct (Write net (json.Marshal (submitf.request form cfg))) as [[n err]|];
      [discriminate|].
    intros _. split; [reflexivity|]. rewrite Marshal_last. split; congruence.
Qed.

Lemma sendToMHRS_bytes_on_the_connection_witness :
  fst (submitf.sendToMHRS connected contact defaultConfig) = None /\
  wire (snd (submitf.sendToMHRS connected contact defaultConfig))
    = [json.Marshal (submitf.request contact defaultConfig)] /\
  last (json.Marshal (submitf.request contact defaultConfig)) x00 = x7d /\
  wire (snd (mhrc.sendToMHRS connected (submitf.request contact defaultConfig)
               defaultConfig))
    = [json.Marshal (submitf.request contact defaultConfig) ++ [x0a]].
Proof.
  split; [reflexivity|].
  destruct (sendToMHRS_bytes_on_the_connection connected defaultConfig)
    as [Hmhrc Hsubmitf].
  destruct (Hsubmitf contact eq_refl) as (Hwire & Hlast & _).
  split; [exact Hwire|]. split; [exact Hlast|].
  exact (Hmhrc (submitf.request contact defaultConfig) eq_refl).
Defined.

(** ** The scenarios of the specification, run *)

(** Scenario A: the first attempt succeeds.  One transport invocation, the
    success is logged, the connection is closed. *)
Example scenario_A :
  exists r,
    handleConnection accepts 3 Background well_formed (fixed (namedDefault appName)) 0
      = Some r /\
    List.length (sends (events r)) = 1%nat /\
    In (EvLog LevelInfo "Email sent successfully") (events r) /\
    last (events r) EvClose = EvClose /\
    wire (events r) = [].
Proof.
  eexists. split; [vm_compute; reflexivity|].
  cbn [events]. repeat split. cbn. tauto.
Qed.

(** Scenario B: two refusals, then success.  Three invocations, and the
    delivery lasts at least twice the retry delay. *)
Example scenario_B :
  exists r,
    processEmail refuses_twice 3 Background hello (fixed (namedDefault appName)) 0
      = Some r /\
    List.length (sends (events r)) = 3%nat /\
    2 * RetryDelay (Server (namedDefault appName)) <= finished r.
Proof.
  eexists. split; [vm_compute; reflexivity|].
  split; [reflexivity | evaluate].
Qed.

(** Scenario C: every attempt is refused.  Three invocations and nothing
    after the third but its log entries. *)
Example scenario_C :
  exists r s st fi err,
    processEmail always_refuses 3 Background hello (fixed (namedDefault appName)) 0
      = Some r /\
    List.length (sends (events r)) = 3%nat /\
    last (actions (events r)) EvClose = EvSend s st fi (Some err).
Proof.
  do 5 eexists. split; [vm_compute; reflexivity|].
  split; reflexivity.
Qed.

(** Scenario E: the context is done at instant 100, in the wait after the
    first attempt.  One invocation, no second attempt, no timer. *)
Example scenario_E :
  exists r s fi err,
    processEmail refuses_twice 3 {| done_at := Some 100 |} hello
      (fixed (namedDefault appName)) 0 = Some r /\
    actions (events r) = [EvSend s 0 fi (Some err); EvCtxDone 100] /\
    finished r = 100.
Proof.
  do 4 eexists. split; [vm_compute; reflexivity|].
  split; reflexivity.
Qed.

(** * Further properties of the code *)

(** ** Loading the configuration *)

(** The defaults pass validation under a name that is a clean path
    component, where the directory of the log is [/var/log/name]. *)
Lemma namedDefault_valid (name : string) :
  clean_component name = true -> validateConfig (namedDefault name) = None.
Proof. reflexivity. Qed.

(** X1.  For an application name that is a clean path component, as
    [mhrs], [mhrc] and [submitf] are, so that [filepath.Join] only puts the
    separators in: [Load] returns a configuration exactly when it returns
    no error.  It reports that the file exists exactly when the directory
    could be made and [os.Stat] found the file, whether or not the file
    could then be read, parsed and validated.  When [os.Stat] does not find
    the file, [Load] fails only if the directory cannot be made: the
    defaults pass validation under every such name. *)
Theorem Load_outcome fs tm name :
  clean_component name = true ->
  (fst (fst (Load fs tm name)) = None <-> snd (Load fs tm name) <> None) /\
  (snd (fst (Load fs tm name)) = true <->
   os_MkdirAll fs (configDir name) = None /\ os_Stat fs (configPath name) = None) /\
  (os_Stat fs (configPath name) <> None ->
   os_MkdirAll fs (configDir name) = None ->
   Load fs tm name = (Some (namedDefault name), false, None)).
Proof.
  intros Hname. unfold Load.
  destruct (os_MkdirAll fs (configDir name)) as [e|].
  { cbn. repeat split; try congruence; intros []; congruence. }
  destruct (os_Stat fs (configPath name)) as [e|].
  { rewrite (namedDefault_valid name Hname). cbn. repeat split; try congruence; intros []; congruence. }
  destruct (os_ReadFile fs (configPath name)) as [data|e].
  - destruct (Unmarshal tm data (namedDefault name)) as [c|e].
    + destruct (validateConfig c); cbn; repeat split; congruence.
    + cbn. repeat split; congruence.
  - cbn. repeat split; congruence.
Qed.

Lemma Load_outcome_witness :
  clean_component mhrc.appName = true /\
  Load (fs no_file) (toml no_file) mhrc.appName
  = (Some (namedDefault mhrc.appName), false, None).
Proof.
  split; [reflexivity|].
  apply (proj2 (proj2 (Load_outcome (fs no_file) (toml no_file) mhrc.appName eq_refl)));
    [discriminate | reflexivity].
Defined.

(** ** Startup *)

(** X2.  Whether [main] exits, returns or serves, and the configuration it
    serves on, do not depend on what [config.Save] does: two systems that
    differ only in [os.WriteFile] and [tinytoml.Marshal] start alike. *)
Theorem main_ignores_Save sys write marshal :
  fst (main sys)
  = fst (main {| fs := {| os_MkdirAll := os_MkdirAll (fs sys);
                          os_Stat := os_Stat (fs sys);
                          os_ReadFile := os_ReadFile (fs sys);
                          os_WriteFile := write |};
                 toml := {| Unmarshal := Unmarshal (toml sys); Marshal := marshal |};
                 logger_Init := logger_Init sys;
                 net_Listen := net_Listen sys |}).
Proof.
  unfold main.
  match goal with
  | |- context [Load ?f ?t appName] =>
    match goal with
    | |- context [Load ?f' ?t' appName] =>
      lazymatch f' with f => fail | _ =>
        replace (Load f' t' appName) with (Load f t appName) by reflexivity
      end
    end
  end.
  cbn [fs toml logger_Init net_Listen].
  destruct (Load (fs sys) (toml sys) appName) as [[[cfg|] configExists] [err|]];
    try reflexivity.
  destruct (logger_Init sys (Logging cfg)); [reflexivity|].
  destruct (net_Listen sys (InternalAddr (Server cfg))); reflexivity.
Qed.

(** ** Signals *)

Lemma signalLoop_reloads pre :
  forall cfg rest,
    Forall (fun s => snd (fst s) = SIGHUP) pre ->
    content (signalLoop (pre ++ rest) cfg)
      = content (signalLoop rest (content (signalLoop pre cfg))) /\
    writes (signalLoop (pre ++ rest) cfg)
      = writes (signalLoop pre cfg)
          ++ writes (signalLoop rest (content (signalLoop pre cfg))) /\
    cancel_called (signalLoop (pre ++ rest) cfg)
      = cancel_called (signalLoop rest (content (signalLoop pre cfg))).
Proof.
  induction pre as [|[[now sig] sys] pre IH]; intros cfg rest Hpre.
  - repeat split.
  - inversion Hpre as [|? ? Hsig Hpre']; subst. cbn in Hsig. subst sig.
    cbn [app signalLoop].
    destruct (reloadConfig sys cfg) as [[[err|] cfg'] evs];
      cbn [content writes cancel_called];
      destruct (IH cfg' rest Hpre') as (Hc & Hw & Hk);
      rewrite ?Hc, ?Hw, ?Hk; repeat split.
Qed.

(** X3.  The signal handler stops at the first SIGINT or SIGTERM: it calls
    [cancel] at that instant, and the signals that come after it, reloads
    included, change neither the shared configuration nor its writes. *)
Theorem signalLoop_stops_at_termination pre now sig sys post cfg :
  sig <> SIGHUP ->
  Forall (fun s => snd (fst s) = SIGHUP) pre ->
  cancel_called (signalLoop (pre ++ (now, sig, sys) :: post) cfg) = Some now /\
  writes (signalLoop (pre ++ (now, sig, sys) :: post) cfg)
    = writes (signalLoop pre cfg) /\
  content (signalLoop (pre ++ (now, sig, sys) :: post) cfg)
    = content (signalLoop pre cfg).
Proof.
  intros Hsig Hpre.
  destruct (signalLoop_reloads pre cfg ((now, sig, sys) :: post) Hpre) as (Hc & Hw & Hk).
  rewrite Hc, Hw, Hk.
  destruct sig; try contradiction; cbn; rewrite ?app_nil_r; repeat split.
Qed.

Lemma signalLoop_stops_at_termination_witness :
  cancel_called
    (signalLoop [(5, SIGHUP, no_file); (9, SIGTERM, no_file); (12, SIGHUP, file_rewritten)]
       tuned) = Some 9 /\
  content
    (signalLoop [(5, SIGHUP, no_file); (9, SIGTERM, no_file); (12, SIGHUP, file_rewritten)]
       tuned) = tuned.
Proof.
  destruct (signalLoop_stops_at_termination [(5, SIGHUP, no_file)] 9 SIGTERM no_file
              [(12, SIGHUP, file_rewritten)] tuned) as (Hk & _ & Hc).
  - discriminate.
  - repeat constructor.
  - split; [exact Hk | exact Hc].
Defined.

Lemma last_nonempty_default {A} (c : A) (l : list A) (d1 d2 : A) :
  last (c :: l) d1 = last (c :: l) d2.
Proof.
  revert c. induction l as [|x l IH]; intros c; [reflexivity|].
  change (last (x :: l) d1 = last (x :: l) d2). apply IH.
Qed.

(** X4.  The configuration in force when the signal handler is done is the
    one of its last write, that is of the last reload that succeeded, or
    the initial one when no reload succeeded; it is what a goroutine reads
    from the shared object at any instant from the last write on. *)
Theorem signalLoop_content_is_last_write sigs :
  forall cfg,
    content (signalLoop sigs cfg)
      = last (map snd (writes (signalLoop sigs cfg))) cfg /\
    forall now,
      Forall (fun wr => fst wr <= now) (writes (signalLoop sigs cfg)) ->
      shared cfg (writes (signalLoop sigs cfg)) now = content (signalLoop sigs cfg).
Proof.
  induction sigs as [|[[t sig] sys] sigs IH]; intros cfg.
  - split; [reflexivity|]. intros now _. reflexivity.
  - cbn [signalLoop]. destruct sig; try (split; [reflexivity|intros now _; reflexivity]).
    pose proof (reloadConfig_cases sys cfg) as Hcases.
    destruct (reloadConfig sys cfg) as [[[err|] cfg'] evs]; cbn [content writes].
    + destruct Hcases as [-> _]. apply IH.
    + destruct (IH cfg') as [Hlast Hshared]. split.
      * rewrite Hlast. cbn [map snd].
        destruct (map snd (writes (signalLoop sigs cfg'))) as [|c l]; [reflexivity|].
        change (last (cfg' :: c :: l) cfg) with (last (c :: l) cfg).
        apply last_nonempty_default.
      * intros now Hws. inversion Hws as [|? ? Ht Hrest]; subst. cbn in Ht.
        unfold shared. cbn [fold_left fst snd].
        destruct (Z.leb_spec t now); [|lia].
        apply (Hshared now Hrest).
Qed.

(** ** The acceptor *)

(** The loop of the acceptor. *)
Lemma acceptLoop_dispatches ctx pre :
  Forall (survivable ctx) pre ->
  dispatched (acceptLoop ctx pre) = accepted pre /\
  returned (acceptLoop ctx pre) = None /\
  forall now err post,
    is_done ctx now = true ->
    dispatched (acceptLoop ctx (pre ++ (now, Err err) :: post)) = accepted pre /\
    returned (acceptLoop ctx (pre ++ (now, Err err) :: post)) = Some now.
Proof.
  induction pre as [|[t [conn|e]] pre IH]; intros Hpre.
  - split; [reflexivity|]. split; [reflexivity|].
    intros now err post Hdone. cbn. rewrite Hdone. split; reflexivity.
  - inversion Hpre as [|? ? _ Hrest]; subst.
    destruct (IH Hrest) as (Hd & Hr & Hstop).
    cbn [acceptLoop accepted dispatched returned].
    split; [rewrite Hd; reflexivity|]. split; [exact Hr|].
    intros now err post Hdone. destruct (Hstop now err post Hdone) as [Hd' Hr'].
    cbn [app acceptLoop dispatched returned]. rewrite Hd', Hr'. split; reflexivity.
  - inversion Hpre as [|? ? Hlive Hrest]; subst. cbn in Hlive.
    destruct (IH Hrest) as (Hd & Hr & Hstop).
    cbn [acceptLoop accepted]. rewrite Hlive. cbn [dispatched returned].
    split; [exact Hd|]. split; [exact Hr|].
    intros now err post Hdone. destruct (Hstop now err post Hdone) as [Hd' Hr'].
    cbn [app acceptLoop]. rewrite Hlive. cbn [dispatched returned].
    split; assumption.
Qed.

(** X5.  An accept error that comes while the context is not done does
    not stop the acceptor, and neither does the cancellation by itself:
    the acceptor hands every connection it accepts to a handler, in order,
    until [Accept] fails at an instant at which the context is done; there
    it returns, and what [Accept] would return later is not looked at. *)
Theorem acceptConnections_dispatches ctx pre :
  Forall (survivable ctx) pre ->
  dispatched (acceptConnections ctx pre) = accepted pre /\
  returned (acceptConnections ctx pre) = None /\
  forall now err post,
    is_done ctx now = true ->
    dispatched (acceptConnections ctx (pre ++ (now, Err err) :: post)) = accepted pre /\
    returned (acceptConnections ctx (pre ++ (now, Err err) :: post)) = Some now.
Proof. exact (acceptLoop_dispatches ctx pre). Qed.

(** The context is done at 10.  The connection accepted at 12 is still
    handed to a handler; the error at 15 stops the acceptor. *)
Lemma acceptConnections_dispatches_witness :
  dispatched
    (acceptConnections {| done_at := Some 10 |}
       ([(1, Ok malformed); (3, Err "too many open files"); (12, Ok well_formed)]
          ++ (15, Err "use of closed network connection") :: [(20, Ok malformed)]))
  = [(1, malformed); (12, well_formed)].
Proof.
  destruct (acceptConnections_dispatches {| done_at := Some 10 |}
              [(1, Ok malformed); (3, Err "too many open files"); (12, Ok well_formed)])
    as (_ & _ & Hstop).
  - repeat constructor.
  - exact (proj1 (Hstop 15 "use of closed network connection" [(20, Ok malformed)]
                    eq_refl)).
Defined.

(** ** More on the delivery engine *)

Lemma timers_actions (tr : list Event) :
  filter is_timer (actions tr) = filter is_timer tr.
Proof.
  unfold actions. induction tr as [|x tr IH]; [reflexivity|].
  destruct x; cbn; rewrite ?IH; reflexivity.
Qed.

Section MoreOnFixedConfiguration.

Variables (w : World) (ctx : Context) (e : Email) (c : Config).

Lemma Delivery_all_fail a now acts fin :
  Delivery w ctx e c a now acts fin ->
  done_at ctx = None ->
  (forall k s, snd (SendWithStartTLS w k s) <> None) ->
  a < MaxRetries (Server c) ->
  Z.of_nat (List.length (sends acts)) = MaxRetries (Server c) - a /\
  Z.of_nat (List.length (filter is_timer acts)) = MaxRetries (Server c) - a - 1 /\
  exists pre s st err, acts = pre ++ [EvSend s st fin (Some err)].
Proof.
  intros Hd Hctx Hfail.
  induction Hd as [a now Hge|a now took Hlt Hsend|a now took err Hlt Hlast Hsend
                   |a now took err woke rest fin Hlt Hsend Hsel Hrest IH
                   |a now took err woke Hlt Hsend Hsel]; intros Ha.
  - lia.
  - specialize (Hfail a (session c e)). rewrite Hsend in Hfail. contradiction.
  - unfold sends. cbn. repeat split; try lia.
    exists [], (session c e), now, err. reflexivity.
  - destruct (IH ltac:(lia)) as (Hs & Ht & pre & s & st & err' & ->).
    unfold sends in *. cbn [filter is_send is_timer List.length].
    repeat split; try lia.
    exists (EvSend (session c e) now (now + Z.max 0 took) (Some err)
              :: EvTimer (now + Z.max 0 took) woke :: pre), s, st, err'.
    reflexivity.
  - apply select_CtxDone in Hsel as (d & Hd & _). congruence.
Qed.

Lemma Delivery_starts_by_deadline a now acts fin :
  Delivery w ctx e c a now acts fin ->
  forall done,
    done_at ctx = Some done ->
    0 < RetryDelay (Server c) ->
    forall x st, In x acts -> start_of x = Some st -> st = now \/ st <= done.
Proof.
  induction 1 as [| | |a now took err woke rest fin Hlt Hsend Hsel Hrest IH|];
    intros done Hdone Hdelay x st Hin Hst; cbn in Hin.
  - contradiction.
  - destruct Hin as [<-|[]]. injection Hst as <-. auto.
  - destruct Hin as [<-|[]]. injection Hst as <-. auto.
  - destruct Hin as [<-|[<-|Hin]]; [injection Hst as <-; auto|discriminate|].
    apply select_TimerFired in Hsel as [-> Hnot].
    specialize (Hnot done Hdone).
    destruct (IH done Hdone Hdelay x st Hin Hst); lia.
  - destruct Hin as [<-|[<-|[]]]; [injection Hst as <-; auto|discriminate].
Qed.

Lemma Delivery_duration a now acts fin :
  Delivery w ctx e c a now acts fin ->
  now + Z.max 0 (Z.of_nat (List.length (sends acts)) - 1)
        * Z.max 0 (RetryDelay (Server c)) <= fin.
Proof.
  unfold sends.
  induction 1 as [| | |a now took err woke rest fin Hlt Hsend Hsel Hrest IH
                  |a now took err woke Hlt Hsend Hsel];
    cbn [filter is_send List.length]; try (cbn; lia).
  - apply select_TimerFired in Hsel as [-> _].
    inversion Hrest; subst; try lia; cbn [filter is_send List.length] in *; nia.
  - apply select_CtxDone in Hsel as (d & _ & -> & _). cbn. lia.
Qed.

End MoreOnFixedConfiguration.

(** X6.  When the shared object holds one configuration, with
    [MaxRetries = N >= 1], from the start of a delivery on (nobody rewrites
    it), the upstream server refuses every attempt and the context is never
    done, the delivery makes exactly [N] transport invocations with [N - 1]
    waits between them, and returns at the instant the last invocation
    returns: it does not wait after the last attempt. *)
Theorem processEmail_persistent_failure w ctx req (cfg : Shared) c now fuel :
  (forall t, now <= t -> cfg t = c) ->
  1 <= MaxRetries (Server c) ->
  MaxRetries (Server c) <= Z.of_nat fuel ->
  done_at ctx = None ->
  (forall k s, snd (SendWithStartTLS w k s) <> None) ->
  exists r,
    processEmail w fuel ctx req cfg now = Some r /\
    Z.of_nat (List.length (sends (events r))) = MaxRetries (Server c) /\
    Z.of_nat (List.length (filter is_timer (events r))) = MaxRetries (Server c) - 1 /\
    exists pre s st err,
      actions (events r) = pre ++ [EvSend s st (finished r) (Some err)].
Proof.
  intros Hcfg HN Hfuel Hctx Hfail.
  destruct (processEmail_Delivery w ctx req c now fuel Hfuel) as (r & Hr & Hd).
  exists r. split.
  { rewrite <- (Hcfg now ltac:(lia)) in Hr.
    apply (processEmail_unwritten w fuel ctx req cfg now r Hr).
    intros t Ht. rewrite (Hcfg t ltac:(lia)), (Hcfg now ltac:(lia)). reflexivity. }
  destruct (Delivery_all_fail _ _ _ _ _ _ _ _ Hd Hctx Hfail ltac:(lia))
    as (Hs & Ht & Hlast).
  rewrite sends_actions in Hs. rewrite timers_actions in Ht.
  repeat split; try lia. exact Hlast.
Qed.

(** A delivery that begins at 10 on [raised], after the reload at 5. *)
Lemma processEmail_persistent_failure_witness :
  (forall t, 10 <= t -> raised t = other) /\
  exists r,
    processEmail always_refuses 3 Background hello raised 10 = Some r /\
    Z.of_nat (List.length (sends (events r))) = 3 /\
    Z.of_nat (List.length (filter is_timer (events r))) = 3 - 1.
Proof.
  assert (Hother : forall t, 10 <= t -> raised t = other).
  { intros t Ht. rewrite raised_reads.
    destruct (Z.leb_spec 5 t); [reflexivity|lia]. }
  split; [exact Hother|].
  destruct (processEmail_persistent_failure always_refuses Background hello
              raised other 10 3%nat)
    as (r & Hr & Hs & Ht & _);
    [exact Hother | evaluate | evaluate | reflexivity | discriminate |].
  exists r. repeat split; assumption.
Defined.

(** X7.  Under a validated configuration no transport attempt of a
    connection starts after the deadline of the request, the instant the
    request was decoded plus [Timeout]: the deadline leaves an attempt in
    flight alone, and ends the wait before the next one. *)
Theorem handleConnection_no_attempt_after_deadline w fuel ctx conn c now :
  validateConfig c = None ->
  MaxRetries (Server c) <= Z.of_nat fuel ->
  exists r,
    handleConnection w fuel ctx conn (fixed c) now = Some r /\
    forall x st,
      In x (events r) -> start_of x = Some st ->
      st <= now + Z.max 0 (read_time conn) + Timeout (Server c).
Proof.
  intros Hvalid Hfuel.
  apply validateConfig_accepts in Hvalid
    as (_ & _ & _ & _ & _ & _ & Htimeout & Hdelay & _).
  unfold handleConnection.
  destruct (json_Decode w (stream conn)) as [req|err].
  - set (t0 := now + Z.max 0 (read_time conn)).
    set (emailCtx := WithTimeout ctx (Timeout (Server (fixed c t0))) t0).
    destruct (processEmail_Delivery w emailCtx req c t0 fuel Hfuel) as (r & Hr & Hd).
    rewrite Hr. eexists. split; [reflexivity|]. cbn [events].
    intros x st Hin Hst.
    assert (Hx : In x (actions (events r))).
    { unfold actions. apply filter_In. split.
      - cbn in Hin. destruct Hin as [<-|[<-|[<-|Hin]]]; try discriminate.
        apply in_app_or in Hin as [Hin|[<-|[]]]; [exact Hin|discriminate].
      - destruct x; try discriminate. reflexivity. }
    assert (Hdone : exists done, done_at emailCtx = Some done
                                 /\ done <= t0 + Timeout (Server c)).
    { unfold emailCtx, WithTimeout, fixed. cbn.
      destruct (done_at ctx) as [d|]; eexists; (split; [reflexivity|lia]). }
    destruct Hdone as (done & Hdone & Hle).
    destruct (Delivery_starts_by_deadline _ _ _ _ _ _ _ _ Hd done Hdone Hdelay x st Hx Hst);
      lia.
  - eexists. split; [reflexivity|]. cbn [events].
    intros x st Hin Hst. cbn in Hin.
    destruct Hin as [<-|[<-|[<-|[<-|[]]]]]; discriminate.
Qed.

(** A request deadline of 15 seconds: the second wait would end at 20. *)
Lemma handleConnection_no_attempt_after_deadline_witness :
  exists r,
    handleConnection accepts_then_refuses 3 Background well_formed (fixed hurried) 0
      = Some r /\
    forall x st,
      In x (events r) -> start_of x = Some st -> st <= 0 + Z.max 0 3 + 15 * Second.
Proof.
  exact (handleConnection_no_attempt_after_deadline accepts_then_refuses 3 Background
           well_formed hurried 0 eq_refl ltac:(evaluate)).
Defined.

(** X8.  A delivery under a configuration nobody writes lasts at least as
    many retry delays as it makes attempts after the first. *)
Theorem processEmail_lasts_the_waits w ctx req c now fuel :
  MaxRetries (Server c) <= Z.of_nat fuel ->
  exists r,
    processEmail w fuel ctx req (fixed c) now = Some r /\
    now + Z.max 0 (Z.of_nat (List.length (sends (events r))) - 1)
          * Z.max 0 (RetryDelay (Server c)) <= finished r.
Proof.
  intros Hfuel.
  destruct (processEmail_Delivery w ctx req c now fuel Hfuel) as (r & Hr & Hd).
  exists r. split; [exact Hr|].
  apply Delivery_duration in Hd. rewrite sends_actions in Hd. exact Hd.
Qed.

Lemma processEmail_lasts_the_waits_witness :
  exists r,
    processEmail refuses_twice 3 Background hello (fixed (namedDefault appName)) 0
      = Some r /\
    0 + Z.max 0 (Z.of_nat (List.length (sends (events r))) - 1)
        * Z.max 0 (10 * Second) <= finished r.
Proof.
  exact (processEmail_lasts_the_waits refuses_twice Background hello
           (namedDefault appName) 0 3%nat ltac:(evaluate)).
Defined.

(** ** The line mhrc writes *)












Lemma mhrc_sendToMHRS_wire net req cfg :
  fst (mhrc.sendToMHRS net req cfg) = None ->
  wire (snd (mhrc.sendToMHRS net req cfg)) = [json.Marshal req ++ [x0a]].
Proof.
  unfold mhrc.sendToMHRS, conn_Write.
  destruct (Dial net (InternalAddr (Server cfg))); [discriminate|].
  destruct (SetWriteDeadline net); [discriminate|].
  destruct (Write net (json.Marshal req ++ [x0a])) as [[n err]|]; [discriminate|].
  reflexivity.
Qed.


(** ** The parser of mhrc *)

Lemma string_app_assoc (a b c : string) :
  ((a ++ b) ++ c)%string = (a ++ b ++ c)%string.
Proof. induction a as [|x a IH]; [reflexivity|]. cbn. rewrite IH. reflexivity. Qed.

Lemma string_app_nil_r (a : string) : (a ++ "")%string = a.
Proof. induction a as [|x a IH]; [reflexivity|]. cbn. rewrite IH. reflexivity. Qed.

(** The header block: lines that are not empty are read as headers, and
    the loop goes on in the headers. *)
Lemma parseLines_header_block ignoreDots hdr :
  forall rest scans msg,
    Forall (fun line => line <> "") hdr ->
    mhrc.parseLines ignoreDots (hdr ++ rest) scans true msg
    = mhrc.parseLines ignoreDots rest (scans + List.length hdr)%nat true
        (fst (mhrc.parseLines ignoreDots hdr scans true msg)).
Proof.
  induction hdr as [|line hdr IH]; intros rest scans msg Hhdr.
  - cbn [app List.length]. rewrite Nat.add_0_r.
    destruct rest; reflexivity.
  - inversion Hhdr as [|? ? Hline Hrest]; subst.
    cbn [app mhrc.parseLines List.length].
    rewrite Nat.add_succ_r.
    destruct line as [|c line]; [contradiction|]. cbn [is_empty].
    destruct (strings.Contains (String c line) ":");
      apply (IH rest (S scans)); assumption.
Qed.

Lemma parseLines_headers_keep_body ignoreDots hdr :
  forall scans msg,
    Forall (fun line => line <> "") hdr ->
    mhrc.body (fst (mhrc.parseLines ignoreDots hdr scans true msg)) = mhrc.body msg.
Proof.
  induction hdr as [|line hdr IH]; intros scans msg Hhdr; [reflexivity|].
  inversion Hhdr as [|? ? Hline Hrest]; subst.
  cbn [mhrc.parseLines].
  destruct line as [|c line]; [contradiction|]. cbn [is_empty].
  destruct (strings.Contains (String c line) ":"); rewrite IH; auto.
Qed.

(** The body: lines that do not end it are appended, each with a
    newline. *)
Lemma parseLines_body_block ignoreDots lines :
  forall rest scans msg,
    ignoreDots = true \/ Forall (fun line => line <> ".") lines ->
    mhrc.parseLines ignoreDots (lines ++ rest) scans false msg
    = mhrc.parseLines ignoreDots rest (scans + List.length lines)%nat false
        {| mhrc.headers := mhrc.headers msg;
           mhrc.body := (mhrc.body msg ++ join_lines lines)%string |}.
Proof.
  induction lines as [|line lines IH]; intros rest scans msg Hdots.
  - cbn [app List.length join_lines]. rewrite Nat.add_0_r, string_app_nil_r.
    destruct msg; reflexivity.
  - cbn [app mhrc.parseLines List.length].
    assert (Hline : negb ignoreDots && String.eqb line "." = false).
    { destruct Hdots as [->|Hdots]; [reflexivity|].
      inversion Hdots; subst. destruct (String.eqb_spec line "."); [contradiction|].
      apply andb_false_r. }
    rewrite Hline, IH, Nat.add_succ_r.
    + cbn [mhrc.headers mhrc.body join_lines]. unfold mhrc.newline.
      rewrite !string_app_assoc. reflexivity.
    + destruct Hdots as [->|Hdots]; [left; reflexivity|right].
      inversion Hdots; assumption.
Qed.

(** X10.  Without the flag [-i], a line that holds a single dot ends the
    message.  When the scanner has recorded no error by the time it finds
    the dot, the parser returns the headers and the body read so far, the
    lines of the body each followed by a newline; neither the lines after
    the dot nor what the scanner meets after it are looked at. *)
Theorem parseMessage_stops_at_dot hdr lines rest err :
  Forall (fun line => line <> "") hdr ->
  Forall (fun line => line <> ".") lines ->
  err (List.length hdr + List.length lines + 2)%nat = None ->
  mhrc.parseMessage
    {| bufio.lines := hdr ++ "" :: lines ++ "." :: rest; bufio.Err_ := err |} false
  = Ok {| mhrc.headers := mhrc.headers (fst (mhrc.parseLines false hdr 0 true blank));
          mhrc.body := join_lines lines |}.
Proof.
  intros Hhdr Hlines Herr. unfold mhrc.parseMessage. cbn [bufio.lines bufio.Err_].
  change {| mhrc.headers := []; mhrc.body := "" |} with blank.
  rewrite (parseLines_header_block false hdr _ 0 blank Hhdr).
  cbn [mhrc.parseLines is_empty].
  rewrite (parseLines_body_block false lines _ _ _ (or_intror Hlines)).
  cbn [mhrc.parseLines negb andb String.eqb Ascii.eqb Bool.eqb mhrc.headers mhrc.body].
  replace (S (S (0 + List.length hdr) + List.length lines))%nat
    with (List.length hdr + List.length lines + 2)%nat by lia.
  rewrite Herr, (parseLines_headers_keep_body false hdr 0 blank Hhdr). reflexivity.
Qed.

Lemma parseMessage_stops_at_dot_witness :
  mhrc.parseMessage dotted false
  = Ok {| mhrc.headers := [("To", "user@example.com"); ("Subject", "Report");
                           ("To", "first@example.com")];
          mhrc.body := join_lines ["Line one"; "Line two"] |}.
Proof.
  apply (parseMessage_stops_at_dot
           ["To: first@example.com"; "Subject:  Report "; "To: user@example.com"]
           ["Line one"; "Line two"] ["after the dot"]
           (fun scans => if Nat.leb 9 scans then Some "read error" else None));
    [repeat constructor; discriminate..|reflexivity].
Defined.
Lemma parseLines_header_block_goes_on ignoreDots hdr :
  forall scans msg,
    Forall (fun line => line <> "") hdr ->
    snd (mhrc.parseLines ignoreDots hdr scans true msg) = S (scans + List.length hdr).
Proof.
  induction hdr as [|line hdr IH]; intros scans msg Hhdr.
  - cbn. rewrite Nat.add_0_r. reflexivity.
  - inversion Hhdr as [|? ? Hline Hrest]; subst.
    cbn [mhrc.parseLines List.length]. rewrite Nat.add_succ_r.
    destruct line as [|c line]; [contradiction|]. cbn [is_empty].
    destruct (strings.Contains (String c line) ":"); apply (IH (S scans)); assumption.
Qed.

(** X11.  Input that holds no empty line has no body: every line is read
    as a header, a line without a colon is dropped, and the request built
    from the message carries a nil body, whatever the flags. *)
Theorem parseMessage_without_empty_line lines ignoreDots :
  Forall (fun line => line <> "") lines ->
  exists msg,
    mhrc.parseMessage {| bufio.lines := lines; bufio.Err_ := fun _ => None |} ignoreDots
      = Ok msg /\
    mhrc.body msg = "" /\
    forall flags recipient, Body (mhrc.request flags msg recipient) = None.
Proof.
  intros Hlines. unfold mhrc.parseMessage. cbn [bufio.lines bufio.Err_].
  change {| mhrc.headers := []; mhrc.body := "" |} with blank.
  pose proof (parseLines_headers_keep_body ignoreDots lines 0 blank Hlines) as Hbody.
  destruct (mhrc.parseLines ignoreDots lines 0 true blank) as [msg scans].
  cbn [fst snd] in *.
  exists msg. split; [reflexivity|]. split; [exact Hbody|].
  intros flags recipient. unfold mhrc.request. cbn [Body]. rewrite Hbody. reflexivity.
Qed.

(** The first example of the README: the message alone on the standard
    input. *)
Lemma parseMessage_without_empty_line_witness :
  exists msg,
    mhrc.parseMessage
      {| bufio.lines := ["Message content"]; bufio.Err_ := fun _ => None |} false
      = Ok msg /\
    mhrc.body msg = "".
Proof.
  destruct (parseMessage_without_empty_line ["Message content"] false)
    as (msg & Hmsg & Hbody & _).
  - repeat constructor; discriminate.
  - exists msg. split; assumption.
Defined.

(** X12.  With the flag [-i] a dot alone on a line is a line of the body
    like any other: the body is every line after the first empty line,
    each followed by a newline. *)
Theorem parseMessage_ignoreDots_keeps_every_line hdr lines :
  Forall (fun line => line <> "") hdr ->
  mhrc.parseMessage
    {| bufio.lines := hdr ++ "" :: lines; bufio.Err_ := fun _ => None |} true
  = Ok {| mhrc.headers := mhrc.headers (fst (mhrc.parseLines true hdr 0 true blank));
          mhrc.body := join_lines lines |}.
Proof.
  intros Hhdr. unfold mhrc.parseMessage. cbn [bufio.lines bufio.Err_].
  change {| mhrc.headers := []; mhrc.body := "" |} with blank.
  rewrite (parseLines_header_block true hdr _ 0 blank Hhdr).
  cbn [mhrc.parseLines is_empty].
  rewrite <- (app_nil_r lines) at 1.
  rewrite (parseLines_body_block true lines [] _ _ (or_introl eq_refl)).
  cbn [mhrc.parseLines mhrc.headers mhrc.body].
  rewrite (parseLines_headers_keep_body true hdr 0 blank Hhdr). reflexivity.
Qed.

Lemma parseMessage_ignoreDots_keeps_every_line_witness :
  mhrc.parseMessage
    {| bufio.lines := ["To: user@example.com"] ++ "" :: ["one"; "."; "two"];
       bufio.Err_ := fun _ => None |} true
  = Ok {| mhrc.headers := [("To", "user@example.com")];
          mhrc.body := join_lines ["one"; "."; "two"] |}.
Proof.
  apply (parseMessage_ignoreDots_keeps_every_line ["To: user@example.com"]
           ["one"; "."; "two"]).
  repeat constructor; discriminate.
Defined.

Lemma parseLines_goes_on ignoreDots lines :
  forall scans inHeaders msg,
    ignoreDots = true \/ Forall (fun line => line <> ".") lines ->
    snd (mhrc.parseLines ignoreDots lines scans inHeaders msg)
    = S (scans + List.length lines).
Proof.
  induction lines as [|line lines IH]; intros scans inHeaders msg Hdots.
  - cbn. rewrite Nat.add_0_r. reflexivity.
  - assert (Hrest : ignoreDots = true \/ Forall (fun line => line <> ".") lines).
    { destruct Hdots as [->|Hdots]; [left; reflexivity|right].
      inversion Hdots; assumption. }
    assert (Hline : negb ignoreDots && String.eqb line "." = false).
    { destruct Hdots as [->|Hdots]; [reflexivity|].
      inversion Hdots; subst. destruct (String.eqb_spec line "."); [contradiction|].
      apply andb_false_r. }
    cbn [mhrc.parseLines List.length]. rewrite Nat.add_succ_r. destruct inHeaders.
    + destruct (is_empty line); [apply (IH (S scans)); assumption|].
      destruct (strings.Contains line ":"); apply (IH (S scans)); assumption.
    + rewrite Hline. apply (IH (S scans)); assumption.
Qed.

(** X13.  When the scanner ends on an error and no dot has ended the
    message before, [parseMessage] returns the error of the scanner and no
    message, however much it had read. *)
Theorem parseMessage_returns_scan_error r ignoreDots err :
  bufio.Err_ r (S (List.length (bufio.lines r))) = Some err ->
  ignoreDots = true \/ Forall (fun line => line <> ".") (bufio.lines r) ->
  mhrc.parseMessage r ignoreDots = Err err.
Proof.
  intros Herr Hdots. unfold mhrc.parseMessage.
  pose proof (parseLines_goes_on ignoreDots (bufio.lines r) 0 true
                {| mhrc.headers := []; mhrc.body := "" |} Hdots) as Hgo.
  destruct (mhrc.parseLines ignoreDots (bufio.lines r) 0 true _) as [msg scans].
  cbn in Hgo. subst scans. rewrite Herr. reflexivity.
Qed.

Lemma parseMessage_returns_scan_error_witness :
  mhrc.parseMessage dotted true = Err "read error".
Proof.
  apply parseMessage_returns_scan_error; [reflexivity|left; reflexivity].
Defined.

(** The headers *)

Lemma Contains_app_sep name value sep :
  strings.Contains (name ++ String sep value) sep = true.
Proof.
  induction name as [|c name IH]; cbn.
  - rewrite Ascii.eqb_refl. reflexivity.
  - rewrite IH. apply orb_true_r.
Qed.

Lemma SplitN2_app_sep name value sep :
  strings.Contains name sep = false ->
  strings.SplitN2 (name ++ String sep value) sep = [name; value].
Proof.
  induction name as [|c name IH]; cbn; intros Hname.
  - rewrite Ascii.eqb_refl. reflexivity.
  - apply orb_false_elim in Hname as [Hc Hrest].
    rewrite Hc, (IH Hrest). reflexivity.
Qed.

(** X14.  A header line sets the header named by what stands before its
    first colon to what stands after it, both without the white space
    around them; it replaces the value an earlier line gave to that name
    and leaves the other headers as they were. *)
Theorem parseMessage_later_header_wins hdr name value ignoreDots :
  Forall (fun line => line <> "") hdr ->
  strings.Contains name ":" = false ->
  exists before after,
    mhrc.parseMessage {| bufio.lines := hdr; bufio.Err_ := fun _ => None |} ignoreDots
      = Ok before /\
    mhrc.parseMessage
      {| bufio.lines := hdr ++ [(name ++ String ":" value)%string];
         bufio.Err_ := fun _ => None |}
      ignoreDots = Ok after /\
    mhrc.header_get (mhrc.headers after) (strings.TrimSpace name)
      = strings.TrimSpace value /\
    forall key,
      key <> strings.TrimSpace name ->
      mhrc.header_get (mhrc.headers after) key
      = mhrc.header_get (mhrc.headers before) key.
Proof.
  intros Hhdr Hname. unfold mhrc.parseMessage. cbn [bufio.lines bufio.Err_].
  change {| mhrc.headers := []; mhrc.body := "" |} with blank.
  rewrite (parseLines_header_block ignoreDots hdr _ 0 blank Hhdr).
  destruct (mhrc.parseLines ignoreDots hdr 0 true blank) as [before scans].
  cbn [fst snd] in *.
  cbn [mhrc.parseLines].
  assert (Hline : is_empty (name ++ String ":" value) = false)
    by (destruct name; reflexivity).
  rewrite Hline, Contains_app_sep, (SplitN2_app_sep _ _ _ Hname). cbn [nth].
  exists before. eexists. split; [reflexivity|]. split; [reflexivity|].
  cbn [mhrc.headers mhrc.header_set mhrc.header_get]. split.
  - rewrite String.eqb_refl. reflexivity.
  - intros key Hkey. destruct (String.eqb_spec (strings.TrimSpace name) key);
      [congruence|reflexivity].
Qed.

Lemma parseMessage_later_header_wins_witness :
  exists after,
    mhrc.parseMessage
      {| bufio.lines := ["To: first@example.com"; "Subject: Report"]
                          ++ [("To " ++ String ":" "  user@example.com ")%string];
         bufio.Err_ := fun _ => None |} false = Ok after /\
    mhrc.header_get (mhrc.headers after) (strings.TrimSpace "To ")
      = strings.TrimSpace "  user@example.com ".
Proof.
  destruct (parseMessage_later_header_wins ["To: first@example.com"; "Subject: Report"]
              "To " "  user@example.com " false)
    as (before & after & _ & Hafter & Hget & _).
  - repeat constructor; discriminate.
  - reflexivity.
  - exists after. split; assumption.
Defined.

(** ** The client mhrc *)

Lemma byte_of_ascii_inj (a b : ascii) : byte_of_ascii a = byte_of_ascii b -> a = b.
Proof.
  intros H. apply (f_equal ascii_of_byte) in H.
  rewrite !ascii_of_byte_of_ascii in H. exact H.
Qed.

(** What [bytes.TrimRight] keeps does not end with the byte of the
    cutset. *)
Lemma dropTrailing_last (c : ascii) (s : string) :
  bytes.dropTrailing c s = "" \/
  last (list_byte_of_string (bytes.dropTrailing c s)) x00 <> byte_of_ascii c.
Proof.
  induction s as [|x s IH]; [left; reflexivity|].
  cbn [bytes.dropTrailing].
  destruct (bytes.dropTrailing c s) as [|y kept] eqn:Hkept.
  - destruct (Ascii.eqb_spec x c) as [->|Hx]; [left; reflexivity|right].
    cbn. intros H. apply Hx, byte_of_ascii_inj, H.
  - right. destruct IH as [IH|IH]; [discriminate|]. exact IH.
Qed.

Lemma request_subject flags msg recipient :
  Subject (mhrc.request flags msg recipient) <> "".
Proof.
  unfold mhrc.request. cbn [Subject].
  destruct (is_empty (mhrc.flag_s flags)) eqn:Hs.
  - destruct (is_empty (mhrc.header_get (mhrc.headers msg) "Subject")) eqn:Hh.
    + discriminate.
    + destruct (mhrc.header_get (mhrc.headers msg) "Subject"); [discriminate|].
      discriminate.
  - destruct (mhrc.flag_s flags); discriminate.
Qed.

Lemma request_body flags msg recipient b :
  Body (mhrc.request flags msg recipient) = Some b -> last b x00 <> x0a.
Proof.
  unfold mhrc.request, bytes.TrimRight. cbn [Body].
  destruct (mhrc.body msg) as [|x s] eqn:Hbody; [discriminate|].
  intros [= <-].
  change (last (list_byte_of_string (bytes.dropTrailing mhrc.newline (String x s))) x00
          <> byte_of_ascii mhrc.newline).
  destruct (dropTrailing_last mhrc.newline (String x s)) as [H|H].
  - rewrite H. discriminate.
  - exact H.
Qed.

(** X15.  When mhrc exits with [EX_OK] and no queue flag was given, it has
    written one line to the relay, the encoding of a request and a newline;
    the subject of that request is not empty, its body does not end with a
    newline, and with the flag [-t] its recipient is not empty. *)
Theorem mhrc_main_success p flags :
  mhrc.status (mhrc.main p flags) = mhrc.EX_OK ->
  mhrc.flag_bp flags || mhrc.flag_bi flags || mhrc.flag_bh flags
    || mhrc.flag_bpurg flags = false ->
  exists req,
    wire (mhrc.relay (mhrc.main p flags)) = [json.Marshal req ++ [x0a]] /\
    Subject req <> "" /\
    (forall b, Body req = Some b -> last b x00 <> x0a) /\
    (mhrc.flag_t flags = true -> Recipient req <> "").
Proof.
  unfold mhrc.main. intros Hok Hqueue. rewrite Hqueue in *.
  destruct (Load (mhrc.fs p) (mhrc.toml p) mhrc.appName)
    as [[[cfg|] configExists] [err|]]; try discriminate.
  2: { destruct (mhrc.parseMessage (mhrc.Stdin p) (mhrc.flag_i flags)) as [msg|err];
         [|discriminate].
       destruct (mhrc.flag_t flags);
         [destruct (is_empty (mhrc.header_get (mhrc.headers msg) "To"))
         |destruct (mhrc.Args flags)]; discriminate. }
  destruct (mhrc.parseMessage (mhrc.Stdin p) (mhrc.flag_i flags)) as [msg|err];
    [|discriminate].
  assert (Hsent : forall recipient,
             mhrc.status
               (match mhrc.sendToMHRS (mhrc.net p) (mhrc.request flags msg recipient) cfg with
                | (Some err, evs) =>
                  {| mhrc.status := mhrc.EX_TEMPFAIL; mhrc.stdout := [mhrc.PrintConfig (Some cfg)];
                     mhrc.stderr := [wrap "Error sending email" err]; mhrc.relay := evs |}
                | (None, evs) =>
                  {| mhrc.status := mhrc.EX_OK; mhrc.stdout := [mhrc.PrintConfig (Some cfg)];
                     mhrc.stderr := []; mhrc.relay := evs |}
                end) = mhrc.EX_OK ->
             wire (mhrc.relay
               (match mhrc.sendToMHRS (mhrc.net p) (mhrc.request flags msg recipient) cfg with
                | (Some err, evs) =>
                  {| mhrc.status := mhrc.EX_TEMPFAIL; mhrc.stdout := [mhrc.PrintConfig (Some cfg)];
                     mhrc.stderr := [wrap "Error sending email" err]; mhrc.relay := evs |}
                | (None, evs) =>
                  {| mhrc.status := mhrc.EX_OK; mhrc.stdout := [mhrc.PrintConfig (Some cfg)];
                     mhrc.stderr := []; mhrc.relay := evs |}
                end))
             = [json.Marshal (mhrc.request flags msg recipient) ++ [x0a]]).
  { intros recipient.
    pose proof (mhrc_sendToMHRS_wire (mhrc.net p) (mhrc.request flags msg recipient) cfg)
      as Hwire.
    destruct (mhrc.sendToMHRS (mhrc.net p) (mhrc.request flags msg recipient) cfg)
      as [[err|] evs]; [discriminate|].
    intros _. exact (Hwire eq_refl). }
  destruct (mhrc.flag_t flags).
  - destruct (is_empty (mhrc.header_get (mhrc.headers msg) "To")) eqn:Hto;
      [discriminate|].
    exists (mhrc.request flags msg (mhrc.header_get (mhrc.headers msg) "To")).
    split; [apply Hsent, Hok|]. split; [apply request_subject|].
    split; [apply request_body|]. intros _. cbn. apply is_empty_false, Hto.
  - destruct (mhrc.Args flags) as [|arg0 args]; [discriminate|].
    exists (mhrc.request flags msg arg0).
    split; [apply Hsent, Hok|]. split; [apply request_subject|].
    split; [apply request_body|]. discriminate.
Qed.

Lemma mhrc_main_success_witness :
  mhrc.status (mhrc.main sendmail_t flags_t) = mhrc.EX_OK /\
  exists req,
    wire (mhrc.relay (mhrc.main sendmail_t flags_t)) = [json.Marshal req ++ [x0a]] /\
    Subject req <> "" /\
    Recipient req <> "".
Proof.
  split; [reflexivity|].
  destruct (mhrc_main_success sendmail_t flags_t eq_refl eq_refl)
    as (req & Hwire & Hsubject & _ & Hto).
  exists req. repeat split; auto.
Defined.

(** X16.  mhrc contacts the relay last: it does so only when the
    configuration loaded, no queue flag was given, the message was read
    from the standard input without error and a recipient is known, from
    the To header with [-t] and from the first argument without; and then
    it exits with [EX_OK] or [EX_TEMPFAIL]. *)
Theorem mhrc_main_contacts_relay_last p flags :
  mhrc.relay (mhrc.main p flags) <> [] ->
  mhrc.flag_bp flags || mhrc.flag_bi flags || mhrc.flag_bh flags
    || mhrc.flag_bpurg flags = false /\
  (exists cfg configExists,
      Load (mhrc.fs p) (mhrc.toml p) mhrc.appName = (Some cfg, configExists, None)) /\
  (exists msg,
      mhrc.parseMessage (mhrc.Stdin p) (mhrc.flag_i flags) = Ok msg /\
      if mhrc.flag_t flags
      then mhrc.header_get (mhrc.headers msg) "To" <> ""
      else mhrc.Args flags <> []) /\
  (mhrc.status (mhrc.main p flags) = mhrc.EX_OK \/
   mhrc.status (mhrc.main p flags) = mhrc.EX_TEMPFAIL).
Proof.
  unfold mhrc.main.
  destruct (Load (mhrc.fs p) (mhrc.toml p) mhrc.appName)
    as [[[cfg|] configExists] [err|]]; try (intros H; now contradiction H).
  2: { intros H. contradiction H.
       destruct (mhrc.flag_bp flags || mhrc.flag_bi flags || mhrc.flag_bh flags
                 || mhrc.flag_bpurg flags); [reflexivity|].
       destruct (mhrc.parseMessage (mhrc.Stdin p) (mhrc.flag_i flags)) as [msg|err];
         [|reflexivity].
       destruct (mhrc.flag_t flags);
         [destruct (is_empty (mhrc.header_get (mhrc.headers msg) "To"))
         |destruct (mhrc.Args flags)]; reflexivity. }
  destruct (mhrc.flag_bp flags || mhrc.flag_bi flags || mhrc.flag_bh flags
            || mhrc.flag_bpurg flags); [intros H; now contradiction H|].
  destruct (mhrc.parseMessage (mhrc.Stdin p) (mhrc.flag_i flags)) as [msg|err];
    [|intros H; now contradiction H].
  destruct (mhrc.flag_t flags).
  - destruct (is_empty (mhrc.header_get (mhrc.headers msg) "To")) eqn:Hto;
      [intros H; now contradiction H|].
    intros _. split; [reflexivity|]. split; [eauto|].
    split; [exists msg; split; [reflexivity|apply is_empty_false, Hto]|].
    destruct (mhrc.sendToMHRS _ _ _) as [[err|] evs]; auto.
  - destruct (mhrc.Args flags) as [|arg0 args]; [intros H; now contradiction H|].
    intros _. split; [reflexivity|]. split; [eauto|].
    split; [exists msg; split; [reflexivity|discriminate]|].
    destruct (mhrc.sendToMHRS _ _ _) as [[err|] evs]; auto.
Qed.

Lemma mhrc_main_contacts_relay_last_witness :
  mhrc.relay (mhrc.main sendmail_t flags_t) <> [] /\
  exists msg,
    mhrc.parseMessage (mhrc.Stdin sendmail_t) (mhrc.flag_i flags_t) = Ok msg /\
    mhrc.header_get (mhrc.headers msg) "To" <> "".
Proof.
  split; [discriminate|].
  destruct (mhrc_main_contacts_relay_last sendmail_t flags_t ltac:(discriminate))
    as (_ & _ & Hmsg & _).
  exact Hmsg.
Defined.

(** ** The form adapter submitf *)

Lemma allowed_origin origin cfg :
  existsb (String.eqb origin) (AllowedOrigins (Server cfg)) = true <->
  In origin (AllowedOrigins (Server cfg)).
Proof.
  rewrite existsb_exists. split.
  - intros (o & Hin & Heq). apply String.eqb_eq in Heq. subst. exact Hin.
  - intros Hin. exists origin. split; [exact Hin|apply String.eqb_refl].
Qed.

Lemma submitf_sendToMHRS_wire net form cfg evs :
  submitf.sendToMHRS net form cfg = (None, evs) ->
  wire evs = [json.Marshal (submitf.request form cfg)].
Proof.
  unfold submitf.sendToMHRS, conn_Write.
  destruct (Dial net (InternalAddr (Server cfg))); [discriminate|].
  destruct (SetWriteDeadline net); [discriminate|].
  destruct (Write net (json.Marshal (submitf.request form cfg))) as [[n err]|];
    [discriminate|].
  intros [= <-]. reflexivity.
Qed.

Ltac handleSubmit_cases net cfg r :=
  unfold submitf.handleSubmit;
  destruct (existsb (String.eqb (submitf.Origin r)) (AllowedOrigins (Server cfg)))
    eqn:Hallowed;
  destruct (String.eqb_spec (submitf.Method r) "OPTIONS") as [Hoptions|Hoptions];
  destruct (String.eqb_spec (submitf.Method r) "POST") as [Hpost|Hpost];
  cbn [negb];
  destruct (submitf.decoded r) as [form|derr] eqn:Hdecoded;
  try (destruct (submitf.validateForm form) as [verr|] eqn:Hvalid);
  try (destruct (submitf.sendToMHRS net form cfg) as [[serr|] evs] eqn:Hsend).

(** X17.  The handler of submitf contacts the relay, and answers 500 or,
    to a request that is no preflight, 200, only for a request whose origin
    is one of the allowed origins, whose method is POST, whose body decodes
    into a form, and whose form [validateForm] accepts. *)
Theorem handleSubmit_forwards_only_valid_posts net cfg r :
  filter on_conn (snd (submitf.handleSubmit net cfg r)) <> [] \/
  submitf.code (fst (submitf.handleSubmit net cfg r))
    = submitf.StatusInternalServerError \/
  (submitf.code (fst (submitf.handleSubmit net cfg r)) = submitf.StatusOK /\
   submitf.Method r <> "OPTIONS") ->
  In (submitf.Origin r) (AllowedOrigins (Server cfg)) /\
  submitf.Method r = "POST" /\
  exists form, submitf.decoded r = Ok form /\ submitf.validateForm form = None.
Proof.
  handleSubmit_cases net cfg r; cbn [fst snd submitf.code submitf.http_Error];
    intros [H|[H|[H Hm]]];
    try (now contradiction H); try discriminate; try contradiction;
    try (cbn in H; now contradiction H);
    (split; [apply allowed_origin, Hallowed|]; split; [exact Hpost|]; eauto).
Qed.

Lemma handleSubmit_forwards_only_valid_posts_witness :
  submitf.code (fst (submitf.handleSubmit connected defaultConfig submission))
    = submitf.StatusOK /\
  exists form,
    submitf.decoded submission = Ok form /\ submitf.validateForm form = None.
Proof.
  split; [reflexivity|].
  destruct (handleSubmit_forwards_only_valid_posts connected defaultConfig submission)
    as (_ & _ & Hform).
  - right. right. split; [reflexivity|discriminate].
  - exact Hform.
Defined.

(** X18.  When the handler answers 200 to a request that is no preflight,
    it has made one Write to the relay, of the encoding of the request
    built from the form, whose recipient is the configured sender address
    and not an address of the form; and the body of the answer is the
    success object. *)
Theorem handleSubmit_success net cfg r :
  submitf.code (fst (submitf.handleSubmit net cfg r)) = submitf.StatusOK ->
  submitf.Method r <> "OPTIONS" ->
  exists form,
    submitf.decoded r = Ok form /\
    wire (snd (submitf.handleSubmit net cfg r))
      = [json.Marshal (submitf.request form cfg)] /\
    Recipient (submitf.request form cfg) = FromAddr (SMTP cfg) /\
    submitf.written (fst (submitf.handleSubmit net cfg r)) = submitf.success_body.
Proof.
  handleSubmit_cases net cfg r; cbn [fst snd submitf.code submitf.http_Error];
    intros Hcode Hm; try discriminate; try contradiction.
  exists form. split; [reflexivity|]. split; [|split; reflexivity].
  cbn [app wire]. rewrite wire_app, (submitf_sendToMHRS_wire _ _ _ _ Hsend).
  reflexivity.
Qed.

Lemma handleSubmit_success_witness :
  wire (snd (submitf.handleSubmit connected defaultConfig submission))
  = [json.Marshal (submitf.request contact defaultConfig)].
Proof.
  destruct (handleSubmit_success connected defaultConfig submission eq_refl)
    as (form & Hform & Hwire & _); [discriminate|].
  injection Hform as <-. exact Hwire.
Defined.

(** X19.  The response carries the header Access-Control-Allow-Origin
    exactly when the origin of the request is one of the allowed origins,
    and then with that origin as its value.  A preflight request is
    answered 200 or 403 by that test alone, with no body, and without
    touching the relay. *)
Theorem handleSubmit_cors net cfg r :
  (forall o,
      In ("Access-Control-Allow-Origin", o)
         (submitf.header (fst (submitf.handleSubmit net cfg r))) <->
      o = submitf.Origin r /\ In (submitf.Origin r) (AllowedOrigins (Server cfg))) /\
  (submitf.Method r = "OPTIONS" ->
   submitf.written (fst (submitf.handleSubmit net cfg r)) = "" /\
   filter on_conn (snd (submitf.handleSubmit net cfg r)) = [] /\
   (In (submitf.Origin r) (AllowedOrigins (Server cfg)) ->
    submitf.code (fst (submitf.handleSubmit net cfg r)) = submitf.StatusOK) /\
   (~ In (submitf.Origin r) (AllowedOrigins (Server cfg)) ->
    submitf.code (fst (submitf.handleSubmit net cfg r)) = submitf.StatusForbidden)).
Proof.
  pose proof (allowed_origin (submitf.Origin r) cfg) as Hiff.
  handleSubmit_cases net cfg r;
    cbn [fst snd submitf.code submitf.header submitf.written submitf.http_Error];
    (split;
     [ intros o; split;
       [ intros H; cbn in H; repeat (destruct H as [H|H]);
         try discriminate; try contradiction;
         (injection H as <-; split; [reflexivity|apply Hiff; reflexivity])
       | intros [-> Hin];
         first [ apply Hiff in Hin; discriminate | cbn; now auto 8 ] ]
     | intros Hm; try contradiction; repeat split;
       try (intros Hx;
            first [ reflexivity
                  | apply Hiff in Hx; discriminate
                  | exfalso; apply Hx, Hiff; reflexivity ]) ]).
Qed.

Lemma handleSubmit_cors_witness :
  submitf.code (fst (submitf.handleSubmit connected defaultConfig preflight))
  = submitf.StatusForbidden.
Proof.
  destruct (handleSubmit_cors connected defaultConfig preflight) as [_ H].
  destruct (H eq_refl) as (_ & _ & _ & Hforbidden).
  apply Hforbidden. cbn. intros [H'|[H'|[]]]; discriminate.
Defined.

(** *** White space and [validateForm] *)

Lemma solid_not_space c : solid c = true -> strings.asciiSpace c = false.
Proof.
  unfold solid, strings.asciiSpace.
  rewrite andb_true_iff, !N.ltb_lt. intros [H1 H2].
  apply orb_false_intro; [apply andb_false_intro2|];
    [apply N.leb_gt; lia | apply N.eqb_neq; lia].
Qed.

Lemma solid_differs a c :
  (128 <= strings.code a)%N -> solid c = true -> Ascii.eqb a c = false.
Proof.
  unfold solid. rewrite andb_true_iff, !N.ltb_lt. intros Ha [_ Hc].
  destruct (Ascii.eqb_spec a c) as [->|]; [lia|reflexivity].
Qed.

Lemma space_differs a c :
  strings.asciiSpace a = true -> solid c = true -> Ascii.eqb a c = false.
Proof.
  intros Ha Hc. destruct (Ascii.eqb_spec a c) as [->|]; [|reflexivity].
  rewrite (solid_not_space c Hc) in Ha. discriminate.
Qed.

Ltac space_bytes H :=
  repeat (progress (rewrite ?orb_true_iff, ?andb_true_iff, ?N.eqb_eq, ?N.leb_le in H)).

Lemma TrimLeftSpace_keeps c (n : nat) :
  solid c = true ->
  forall s,
    (String.length s <= n)%nat ->
    strings.Contains s c = true ->
    strings.Contains (strings.TrimLeftSpace s) c = true.
Proof.
  intros Hc. induction n as [|n IH]; intros s Hlen Hs.
  - destruct s; [discriminate|cbn in Hlen; lia].
  - destruct s as [|c0 rest]; [discriminate|].
    cbn [strings.TrimLeftSpace].
    destruct (strings.asciiSpace c0) eqn:Hsp.
    { cbn in Hs, Hlen. rewrite (space_differs c0 c Hsp Hc) in Hs.
      apply IH; [lia|exact Hs]. }
    destruct rest as [|c1 rest1]; [exact Hs|].
    match goal with |- context [if ?b then _ else _] => destruct b eqn:H2 end.
    { space_bytes H2. cbn in Hs, Hlen.
      rewrite (solid_differs c0 c ltac:(lia) Hc), (solid_differs c1 c ltac:(lia) Hc) in Hs.
      apply IH; [lia|exact Hs]. }
    destruct rest1 as [|c2 rest2]; [exact Hs|].
    match goal with |- context [if ?b then _ else _] => destruct b eqn:H3 end;
      [|exact Hs].
    space_bytes H3. cbn in Hs, Hlen.
    rewrite (solid_differs c0 c ltac:(lia) Hc), (solid_differs c1 c ltac:(lia) Hc),
      (solid_differs c2 c ltac:(lia) Hc) in Hs.
    apply IH; [lia|exact Hs].
Qed.

Lemma TrimLeftSpaceReversed_keeps c (n : nat) :
  solid c = true ->
  forall s,
    (String.length s <= n)%nat ->
    strings.Contains s c = true ->
    strings.Contains (strings.TrimLeftSpaceReversed s) c = true.
Proof.
  intros Hc. induction n as [|n IH]; intros s Hlen Hs.
  - destruct s; [discriminate|cbn in Hlen; lia].
  - destruct s as [|c0 rest]; [discriminate|].
    cbn [strings.TrimLeftSpaceReversed].
    destruct (strings.asciiSpace c0) eqn:Hsp.
    { cbn in Hs, Hlen. rewrite (space_differs c0 c Hsp Hc) in Hs.
      apply IH; [lia|exact Hs]. }
    destruct rest as [|c1 rest1]; [exact Hs|].
    match goal with |- context [if ?b then _ else _] => destruct b eqn:H2 end.
    { space_bytes H2. cbn in Hs, Hlen.
      rewrite (solid_differs c0 c ltac:(lia) Hc), (solid_differs c1 c ltac:(lia) Hc) in Hs.
      apply IH; [lia|exact Hs]. }
    destruct rest1 as [|c2 rest2]; [exact Hs|].
    match goal with |- context [if ?b then _ else _] => destruct b eqn:H3 end;
      [|exact Hs].
    space_bytes H3. cbn in Hs, Hlen.
    rewrite (solid_differs c0 c ltac:(lia) Hc), (solid_differs c1 c ltac:(lia) Hc),
      (solid_differs c2 c ltac:(lia) Hc) in Hs.
    apply IH; [lia|exact Hs].
Qed.

Lemma Contains_reverse s :
  forall acc c,
    strings.Contains (strings.reverse s acc) c
    = strings.Contains s c || strings.Contains acc c.
Proof.
  induction s as [|x s IH]; intros acc c; [reflexivity|].
  cbn [strings.reverse strings.Contains]. rewrite IH. cbn [strings.Contains].
  destruct (Ascii.eqb x c), (strings.Contains s c); reflexivity.
Qed.

(** [TrimSpace] removes no printable character. *)
Lemma TrimSpace_keeps s c :
  solid c = true ->
  strings.Contains s c = true ->
  strings.Contains (strings.TrimSpace s) c = true.
Proof.
  intros Hc Hs. unfold strings.TrimSpace.
  rewrite Contains_reverse, orb_false_r.
  apply (TrimLeftSpaceReversed_keeps c _ Hc _ (le_n _)).
  rewrite Contains_reverse, orb_false_r.
  apply (TrimLeftSpace_keeps c _ Hc _ (le_n _)), Hs.
Qed.

Lemma TrimSpace_all_spaces s : all_spaces s = true -> strings.TrimSpace s = "".
Proof.
  intros Hs. unfold strings.TrimSpace.
  assert (H : strings.TrimLeftSpace s = "").
  { induction s as [|c s IH]; [reflexivity|].
    cbn in Hs. apply andb_prop in Hs as [Hc Hs].
    cbn [strings.TrimLeftSpace]. rewrite Hc. apply IH, Hs. }
  rewrite H. reflexivity.
Qed.

Lemma Contains_not_empty s c : strings.Contains s c = true -> is_empty s = false.
Proof. destruct s; [discriminate|reflexivity]. Qed.

(** X20.  [validateForm] accepts every form whose name and message each
    hold a printable ASCII character other than the space and whose email
    address holds an at sign.  It rejects, with the error of the name, a
    form whose name is empty or made of ASCII white space only; with the
    error of the address, a form with such a name as above and no at sign
    in the address; and with the error of the message, a form that fails
    on the message only. *)
Theorem validateForm_verdict form :
  (forall c m,
      solid c = true -> strings.Contains (submitf.Name_ form) c = true ->
      strings.Contains (submitf.Email_ form) "@" = true ->
      solid m = true -> strings.Contains (submitf.Message form) m = true ->
      submitf.validateForm form = None) /\
  (all_spaces (submitf.Name_ form) = true ->
   submitf.validateForm form = Some "name is required") /\
  (forall c,
      solid c = true -> strings.Contains (submitf.Name_ form) c = true ->
      strings.Contains (submitf.Email_ form) "@" = false ->
      submitf.validateForm form = Some "invalid email address") /\
  (forall c,
      solid c = true -> strings.Contains (submitf.Name_ form) c = true ->
      strings.Contains (submitf.Email_ form) "@" = true ->
      all_spaces (submitf.Message form) = true ->
      submitf.validateForm form = Some "message is required").
Proof.
  unfold submitf.validateForm. repeat split.
  - intros c m Hc Hname Hat Hm Hmessage.
    rewrite (Contains_not_empty _ c (TrimSpace_keeps _ c Hc Hname)), Hat.
    rewrite (Contains_not_empty _ m (TrimSpace_keeps _ m Hm Hmessage)). reflexivity.
  - intros Hname. rewrite (TrimSpace_all_spaces _ Hname). reflexivity.
  - intros c Hc Hname Hat.
    rewrite (Contains_not_empty _ c (TrimSpace_keeps _ c Hc Hname)), Hat. reflexivity.
  - intros c Hc Hname Hat Hmessage.
    rewrite (Contains_not_empty _ c (TrimSpace_keeps _ c Hc Hname)), Hat.
    rewrite (TrimSpace_all_spaces _ Hmessage). reflexivity.
Qed.

Lemma validateForm_verdict_witness :
  submitf.validateForm contact = None /\
  submitf.validateForm
    {| submitf.Name_ := "  "; submitf.Email_ := "ann@example.com";
       submitf.Message := "hi" |} = Some "name is required".
Proof.
  split.
  - apply (proj1 (validateForm_verdict contact) "A"%char "h"%char); reflexivity.
  - apply (proj1 (proj2 (validateForm_verdict _))). reflexivity.
Defined.

(** *** The connection of a producer *)

(** X21.  Each producer closes the connection it dialled, on every path
    and as the last thing it does on it, after at most one Write; what
    went out is the encoding of the request, with the newline for mhrc, or
    the part of it that the failed Write had sent.  A producer whose dial
    fails does nothing on a connection. *)
Theorem sendToMHRS_closes_what_it_dialled net cfg :
  (forall req,
      let data := json.Marshal req ++ [x0a] in
      match Dial net (InternalAddr (Server cfg)) with
      | Some _ => snd (mhrc.sendToMHRS net req cfg) = []
      | None =>
        snd (mhrc.sendToMHRS net req cfg) = [EvClose] \/
        exists n, snd (mhrc.sendToMHRS net req cfg) = [EvWrite (firstn n data); EvClose]
      end) /\
  (forall form,
      let data := json.Marshal (submitf.request form cfg) in
      match Dial net (InternalAddr (Server cfg)) with
      | Some _ => filter on_conn (snd (submitf.sendToMHRS net form cfg)) = []
      | None =>
        filter on_conn (snd (submitf.sendToMHRS net form cfg)) = [EvClose] \/
        exists n,
          filter on_conn (snd (submitf.sendToMHRS net form cfg))
          = [EvWrite (firstn n data); EvClose]
      end).
Proof.
  split.
  - intros req data. unfold mhrc.sendToMHRS, conn_Write. fold data.
    destruct (Dial net (InternalAddr (Server cfg))); [reflexivity|].
    destruct (SetWriteDeadline net); [left; reflexivity|].
    destruct (Write net data) as [[n err]|]; right.
    + exists n. reflexivity.
    + exists (List.length data). rewrite firstn_all. reflexivity.
  - intros form data. unfold submitf.sendToMHRS, conn_Write. fold data.
    destruct (Dial net (InternalAddr (Server cfg))); [reflexivity|].
    destruct (SetWriteDeadline net); [left; reflexivity|].
    destruct (Write net data) as [[n err]|]; right.
    + exists n. reflexivity.
    + exists (List.length data). rewrite firstn_all. reflexivity.
Qed.
